(** * Crazy Ace: the game-state machine of [src/App.tsx]

    A shallow embedding of the React component's game logic.  The
    component keeps eleven [useState] cells; every event handler reads
    the cells of the render it was created in (its snapshot) and queues
    writes through the setters.  We model the cells as one record, the
    queued writes as a small state monad over that record, and an event
    as running a handler with a snapshot on the live state.  The
    snapshot is the live state itself, except for the buttons that
    [AnimatePresence] keeps mounted after they have left the render:
    their handlers still close over the render before. *)

From Stdlib Require Import String.
From Stdlib Require Import List Bool Arith ZArith Lia Permutation.
Import ListNotations.
Open Scope string_scope.
Open Scope list_scope.

(** ** Cards *)

Inductive Suit := hearts | diamonds | clubs | spades.

(** Modelled from the spec: the [Rank] type is declared in [./types],
    which is not part of the sources; the spec gives it 13 fixed values
    including the wild rank "A". *)
Inductive Rank := RA | R2 | R3 | R4 | R5 | R6 | R7 | R8 | R9 | R10 | RJ | RQ | RK.

Record Card := mkCard { id : string; suit : Suit; rank : Rank }.

Definition suit_eqb (a b : Suit) : bool :=
  match a, b with
  | hearts, hearts | diamonds, diamonds | clubs, clubs | spades, spades => true
  | _, _ => false
  end.

Definition rank_eqb (a b : Rank) : bool :=
  match a, b with
  | RA, RA | R2, R2 | R3, R3 | R4, R4 | R5, R5 | R6, R6 | R7, R7
  | R8, R8 | R9, R9 | R10, R10 | RJ, RJ | RQ, RQ | RK, RK => true
  | _, _ => false
  end.

(** The string a suit or a rank is at run time (both are string literal
    types in the source). *)
Definition suit_str (s : Suit) : string :=
  match s with
  | hearts => "hearts" | diamonds => "diamonds"
  | clubs => "clubs" | spades => "spades"
  end.

Definition rank_str (r : Rank) : string :=
  match r with
  | RA => "A" | R2 => "2" | R3 => "3" | R4 => "4" | R5 => "5" | R6 => "6"
  | R7 => "7" | R8 => "8" | R9 => "9" | R10 => "10"
  | RJ => "J" | RQ => "Q" | RK => "K"
  end.

(** [SUITS] of [./types]. *)
Definition SUITS : list Suit := [hearts; diamonds; clubs; spades].

Definition RANKS : list Rank :=
  [RA; R2; R3; R4; R5; R6; R7; R8; R9; R10; RJ; RQ; RK].

(** Modelled from the spec: [createDeck] lives in [./types], which is
    not part of the sources.  The spec: the 52 distinct (suit, rank)
    combinations, each tagged with a unique identifier, in a
    deterministic order. *)
Definition card (r : Rank) (su : Suit) : Card :=
  mkCard (rank_str r ++ "-" ++ suit_str su)%string su r.

Definition createDeck : list Card :=
  flat_map (fun su => map (fun r => card r su) RANKS) SUITS.

(** ** The component's state *)

Inductive Turn := player | ai.
Inductive GameStatus := start | playing | won | lost.

Definition turn_eqb (a b : Turn) : bool :=
  match a, b with
  | player, player | ai, ai => true
  | _, _ => false
  end.

Definition status_eqb (a b : GameStatus) : bool :=
  match a, b with
  | start, start | playing, playing | won, won | lost, lost => true
  | _, _ => false
  end.

Record State := mkState {
  deck : list Card;
  playerHand : list Card;
  aiHand : list Card;
  discardPile : list Card;
  currentSuit : option Suit;
  turn : Turn;
  gameStatus : GameStatus;
  showSuitPicker : bool;
  pendingAceCard : option Card;
  message : string;
  isAiThinking : bool
}.

(** The values the [useState] calls start from. *)
Definition initialState : State :=
  mkState [] [] [] [] None player start false None
          "Welcome to Crazy Ace!" false.

(** ** Queued writes *)

Definition Upd (A : Type) : Type := State -> A * State.

Definition ret {A} (a : A) : Upd A := fun q => (a, q).
Definition bind {A B} (m : Upd A) (k : A -> Upd B) : Upd B :=
  fun q => let (a, q') := m q in k a q'.

Notation "m ;; k" := (bind m (fun _ => k))
  (at level 61, right associativity).
Notation "x <- m ;; k" := (bind m (fun x => k))
  (at level 61, m at next level, right associativity).

Definition setDeck (v : list Card) : Upd unit := fun q =>
  (tt, mkState v (playerHand q) (aiHand q) (discardPile q) (currentSuit q)
         (turn q) (gameStatus q) (showSuitPicker q) (pendingAceCard q)
         (message q) (isAiThinking q)).
Definition setPlayerHand (v : list Card) : Upd unit := fun q =>
  (tt, mkState (deck q) v (aiHand q) (discardPile q) (currentSuit q)
         (turn q) (gameStatus q) (showSuitPicker q) (pendingAceCard q)
         (message q) (isAiThinking q)).
Definition setAiHand (v : list Card) : Upd unit := fun q =>
  (tt, mkState (deck q) (playerHand q) v (discardPile q) (currentSuit q)
         (turn q) (gameStatus q) (showSuitPicker q) (pendingAceCard q)
         (message q) (isAiThinking q)).
(** [setDiscardPile] is only ever called with an updater function
    [prev => ...], which reads the queued value. *)
Definition setDiscardPile (f : list Card -> list Card) : Upd unit := fun q =>
  (tt, mkState (deck q) (playerHand q) (aiHand q) (f (discardPile q))
         (currentSuit q) (turn q) (gameStatus q) (showSuitPicker q)
         (pendingAceCard q) (message q) (isAiThinking q)).
Definition setCurrentSuit (v : option Suit) : Upd unit := fun q =>
  (tt, mkState (deck q) (playerHand q) (aiHand q) (discardPile q) v
         (turn q) (gameStatus q) (showSuitPicker q) (pendingAceCard q)
         (message q) (isAiThinking q)).
Definition setTurn (v : Turn) : Upd unit := fun q =>
  (tt, mkState (deck q) (playerHand q) (aiHand q) (discardPile q)
         (currentSuit q) v (gameStatus q) (showSuitPicker q)
         (pendingAceCard q) (message q) (isAiThinking q)).
Definition setGameStatus (v : GameStatus) : Upd unit := fun q =>
  (tt, mkState (deck q) (playerHand q) (aiHand q) (discardPile q)
         (currentSuit q) (turn q) v (showSuitPicker q) (pendingAceCard q)
         (message q) (isAiThinking q)).
Definition setShowSuitPicker (v : bool) : Upd unit := fun q =>
  (tt, mkState (deck q) (playerHand q) (aiHand q) (discardPile q)
         (currentSuit q) (turn q) (gameStatus q) v (pendingAceCard q)
         (message q) (isAiThinking q)).
Definition setPendingAceCard (v : option Card) : Upd unit := fun q =>
  (tt, mkState (deck q) (playerHand q) (aiHand q) (discardPile q)
         (currentSuit q) (turn q) (gameStatus q) (showSuitPicker q) v
         (message q) (isAiThinking q)).
Definition setMessage (v : string) : Upd unit := fun q =>
  (tt, mkState (deck q) (playerHand q) (aiHand q) (discardPile q)
         (currentSuit q) (turn q) (gameStatus q) (showSuitPicker q)
         (pendingAceCard q) v (isAiThinking q)).
Definition setIsAiThinking (v : bool) : Upd unit := fun q =>
  (tt, mkState (deck q) (playerHand q) (aiHand q) (discardPile q)
         (currentSuit q) (turn q) (gameStatus q) (showSuitPicker q)
         (pendingAceCard q) (message q) v).

(** An event.  A handler is a closure of one render: it reads the cells
    of that render, [snap], and its writes are applied to the state the
    event arrives in, [live]. *)
Definition runOn (h : State -> Upd unit) (snap live : State) : State :=
  snd (h snap live).

(** The handler of the current render: the snapshot is the live state. *)
Definition run (h : State -> Upd unit) (s : State) : State := runOn h s s.

(** ** Array helpers *)

(** [l.slice(a, b)] and [l.slice(a)] for in-range natural indices. *)
Definition slice (a b : nat) (l : list Card) : list Card :=
  firstn (b - a) (skipn a l).
Definition slice_from (a : nat) (l : list Card) : list Card := skipn a l.

(** [l.filter(c => c.id !== card.id)] *)
Definition without (card : Card) (l : list Card) : list Card :=
  filter (fun c => negb (String.eqb (id c) (id card))) l.

(** ** [initGame]

    [fullDeck] stands for the value of [shuffleDeck(createDeck())]; both
    functions live in [./types] and return 52 cards.  On a deck without
    a 21st card the read of [initialDiscard.suit] (line 51) throws after
    lines 47-50 have queued their four writes, one of them a discard
    pile holding [undefined]; [None] stands for that throw, and the
    state it leaves behind is outside this model: whatever is proved of
    a deal is proved for a deck that has a 21st card. *)
Definition initGame (fullDeck : list Card) : option (Upd unit) :=
  let pHand := slice 0 10 fullDeck in
  let aHand := slice 10 20 fullDeck in
  match nth_error fullDeck 20 with
  | None => None
  | Some initialDiscard =>
    let remainingDeck := slice_from 21 fullDeck in
    Some (
      setPlayerHand pHand ;;
      setAiHand aHand ;;
      setDiscardPile (fun _ => [initialDiscard]) ;;
      setDeck remainingDeck ;;
      setCurrentSuit (Some (suit initialDiscard)) ;;
      setTurn player ;;
      setGameStatus playing ;;
      setShowSuitPicker false ;;
      setPendingAceCard None ;;
      setMessage "Your turn! Match the suit or rank." ;;
      setIsAiThinking false)
  end.

(** The state after the start or restart button, from any state [s]. *)
Definition startGame (fullDeck : list Card) (s : State) : option State :=
  match initGame fullDeck with
  | None => None
  | Some u => Some (snd (u s))
  end.

(** ** Legality *)

Definition topDiscard (s : State) : option Card :=
  nth_error (discardPile s) (length (discardPile s) - 1).

Definition suit_is (x : Suit) (cur : option Suit) : bool :=
  match cur with
  | Some y => suit_eqb x y
  | None => false
  end.

Definition canPlay (s : State) (card : Card) : bool :=
  match topDiscard s with
  | None => false
  | Some top =>
    if rank_eqb (rank card) RA then true
    else suit_is (suit card) (currentSuit s) || rank_eqb (rank card) (rank top)
  end.

(** ** Terminal check

    The [confetti] call of the winning branch belongs to the
    presentation layer and writes no state. *)

Definition checkGameOver (pHand aHand : list Card) : Upd bool :=
  if Nat.eqb (length pHand) 0 then
    setGameStatus lost ;;
    setMessage "You cleared your hand first... You LOSE!" ;;
    ret true
  else if Nat.eqb (length aHand) 0 then
    setGameStatus won ;;
    setMessage "AI cleared its hand first... You WIN!" ;;
    ret true
  else ret false.

(** ** Human intents *)

Definition handlePlayerPlay (card : Card) (s : State) : Upd unit :=
  if negb (turn_eqb (turn s) player)
     || negb (status_eqb (gameStatus s) playing)
     || negb (canPlay s card)
  then ret tt
  else if rank_eqb (rank card) RA then
    setPendingAceCard (Some card) ;;
    setShowSuitPicker true
  else
    let newHand := without card (playerHand s) in
    setPlayerHand newHand ;;
    setDiscardPile (fun prev => prev ++ [card]) ;;
    setCurrentSuit (Some (suit card)) ;;
    over <- checkGameOver newHand (aiHand s) ;;
    if negb over then
      setTurn ai ;;
      setMessage "AI is thinking..."
    else ret tt.

Definition handleSuitPick (su : Suit) (s : State) : Upd unit :=
  match pendingAceCard s with
  | None => ret tt
  | Some pending =>
    let newHand := without pending (playerHand s) in
    setPlayerHand newHand ;;
    setDiscardPile (fun prev => prev ++ [pending]) ;;
    setCurrentSuit (Some su) ;;
    setShowSuitPicker false ;;
    setPendingAceCard None ;;
    over <- checkGameOver newHand (aiHand s) ;;
    if negb over then
      setTurn ai ;;
      setMessage ("You changed suit to " ++ suit_str su ++ ". AI's turn.")%string
    else ret tt
  end.

Definition handleDraw (s : State) : Upd unit :=
  if negb (turn_eqb (turn s) player)
     || negb (status_eqb (gameStatus s) playing)
  then ret tt
  else
    match deck s with
    | [] =>
      setMessage "Deck is empty! Skipping turn." ;;
      setTurn ai
    | newCard :: newDeck =>
      let newHand := playerHand s ++ [newCard] in
      setPlayerHand newHand ;;
      setDeck newDeck ;;
      setMessage ("You drew a " ++ rank_str (rank newCard) ++ " of "
                  ++ suit_str (suit newCard) ++ ".")%string ;;
      if negb (canPlay s newCard) then setTurn ai else ret tt
    end.

Definition playCard (card : Card) : State -> State := run (handlePlayerPlay card).
Definition chooseSuit (su : Suit) : State -> State := run (handleSuitPick su).
Definition draw : State -> State := run handleDraw.

(** ** The opponent's move *)

(** [suitCounts : Record<string, number>].  The keys of a JS object
    with non-numeric string keys enumerate in insertion order, so the
    object is an association list: writing an existing key updates it
    in place, writing a new key appends it. *)
Definition SuitCounts := list (Suit * nat).

Fixpoint get (m : SuitCounts) (k : Suit) : option nat :=
  match m with
  | [] => None
  | (k', n) :: m' => if suit_eqb k' k then Some n else get m' k
  end.

Fixpoint set (m : SuitCounts) (k : Suit) (v : nat) : SuitCounts :=
  match m with
  | [] => [(k, v)]
  | (k', n) :: m' =>
    if suit_eqb k' k then (k', v) :: m' else (k', n) :: set m' k v
  end.

(** [Object.keys(m)] *)
Definition keys (m : SuitCounts) : list Suit := map fst m.

(** [m[k] || 0] *)
Definition get_or_0 (m : SuitCounts) (k : Suit) : nat :=
  match get m k with
  | Some n => n
  | None => 0
  end.

(** [newAiHand.forEach(c => { suitCounts[c.suit] = (suitCounts[c.suit] || 0) + 1 })]
    starting from the empty object. *)
Definition countCard (m : SuitCounts) (c : Card) : SuitCounts :=
  set m (suit c) (get_or_0 m (suit c) + 1).

Definition countSuits (hand : list Card) : SuitCounts :=
  fold_left countCard hand [].

(** The comparator [(a, b) => suitCounts[b] - suitCounts[a]]. *)
Definition byCountDesc (m : SuitCounts) (a b : Suit) : Z :=
  (Z.of_nat (get_or_0 m b) - Z.of_nat (get_or_0 m a))%Z.

(** [Array.prototype.sort] is stable; with a consistent comparator its
    result is the one a stable insertion sort gives. *)
Fixpoint insert (cmp : Suit -> Suit -> Z) (x : Suit) (l : list Suit) : list Suit :=
  match l with
  | [] => [x]
  | y :: l' => if (cmp x y <=? 0)%Z then x :: l else y :: insert cmp x l'
  end.

Definition sort (cmp : Suit -> Suit -> Z) (l : list Suit) : list Suit :=
  fold_right (insert cmp) [] l.

(** [Object.keys(suitCounts).sort(...)[0] || 'hearts'] *)
Definition bestSuit (hand : list Card) : Suit :=
  let suitCounts := countSuits hand in
  match sort (byCountDesc suitCounts) (keys suitCounts) with
  | su :: _ => su
  | [] => hearts
  end.

Definition nonAce (c : Card) : bool := negb (rank_eqb (rank c) RA).

(** [playableCards.find(c => c.rank !== 'A') || playableCards[0]],
    for a non-empty [playableCards] whose first element is [first]. *)
Definition pick (first : Card) (playableCards : list Card) : Card :=
  match find nonAce playableCards with
  | Some c => c
  | None => first
  end.

(** The card the opponent plays, if any. *)
Definition cardToPlay (s : State) : option Card :=
  match filter (canPlay s) (aiHand s) with
  | [] => None
  | first :: rest => Some (pick first (first :: rest))
  end.

(** The body of the timer callback of the opponent's effect. *)
Definition aiTimeout (s : State) : Upd unit :=
  (match cardToPlay s with
   | Some card =>
     let newAiHand := without card (aiHand s) in
     setAiHand newAiHand ;;
     setDiscardPile (fun prev => prev ++ [card]) ;;
     (if rank_eqb (rank card) RA then
        let best := bestSuit newAiHand in
        setCurrentSuit (Some best) ;;
        setMessage ("AI played Ace and changed suit to " ++ suit_str best ++ "!")%string
      else
        setCurrentSuit (Some (suit card)) ;;
        setMessage ("AI played " ++ rank_str (rank card) ++ " of "
                    ++ suit_str (suit card) ++ ".")%string) ;;
     over <- checkGameOver (playerHand s) newAiHand ;;
     if negb over then setTurn player else ret tt
   | None =>
     match deck s with
     | newCard :: newDeck =>
       let newAiHand := aiHand s ++ [newCard] in
       setAiHand newAiHand ;;
       setDeck newDeck ;;
       setMessage "AI had no moves and drew a card." ;;
       if canPlay s newCard then setTurn player else setTurn player
     | [] =>
       setMessage "AI has no moves and deck is empty. Skipping." ;;
       setTurn player
     end
   end) ;;
  setIsAiThinking false.

(** The effect schedules the callback only on the opponent's turn of a
    game in progress. *)
Definition aiScheduled (s : State) : bool :=
  turn_eqb (turn s) ai && status_eqb (gameStatus s) playing.

Definition aiEffect (s : State) : Upd unit :=
  if aiScheduled s then setIsAiThinking true else ret tt.

(** The opponent decision step: the callback firing, when scheduled. *)
Definition aiMove (s : State) : State :=
  if aiScheduled s then run aiTimeout s else s.

(** ** Reachable states

    A deck is what [shuffleDeck(createDeck())] returns: 52 cards with
    distinct identifiers. *)
Definition ids (l : list Card) : list string := map id l.

Definition fullDeckOk (d : list Card) : Prop :=
  length d = 52 /\ NoDup (ids d).

(** The buttons of the hand (lines 389-401) and of the suit picker
    (lines 445-466) are children of [AnimatePresence]: a button that has
    left the render stays mounted while its exit animation runs, with
    the [onClick] closure of the last render it was part of.  After a
    play the button of the played card is such a button; after a suit
    choice so are the four buttons of the picker and the button of the
    Ace that was pending. *)
Inductive Exiting := AceButton | SuitButton (su : Suit).

(** A click on a button left over by a suit choice made in [snap]. *)
Definition staleAfterPick (snap live : State) (b : Exiting) : State :=
  match b with
  | SuitButton su => runOn (handleSuitPick su) snap live
  | AceButton =>
    match pendingAceCard snap with
    | Some a => runOn (handlePlayerPlay a) snap live
    | None => live
    end
  end.

(** The states of the component after a deal.  [handlePlayerPlay] does
    not check that its card is in the hand, so no such condition is put
    on a play.  A play may be followed by any number of clicks on the
    leaving button of the played card, a suit choice by any number of
    clicks on the leaving buttons of the picker and of the Ace, all
    handled with the render before the play or the choice as snapshot.
    The buttons a restart or such a late click removes are not
    followed. *)
Inductive reachable : State -> Prop :=
| reach_deal d s0 s :
    fullDeckOk d -> startGame d s0 = Some s -> reachable s
| reach_play c n s :
    reachable s ->
    reachable (Nat.iter n (runOn (handlePlayerPlay c) s) (playCard c s))
| reach_suit su bs s :
    reachable s ->
    reachable (fold_left (staleAfterPick s) bs (chooseSuit su s))
| reach_draw s :
    reachable s -> reachable (draw s)
| reach_thinking s :
    reachable s -> reachable (run aiEffect s)
| reach_ai s :
    reachable s -> reachable (aiMove s).

(** The four zones of the table. *)
Definition zones (s : State) : list Card :=
  deck s ++ playerHand s ++ aiHand s ++ discardPile s.

Definition zonesOk (s : State) : Prop :=
  length (deck s) + length (playerHand s) + length (aiHand s)
    + length (discardPile s) = 52
  /\ NoDup (ids (zones s)).

(** A pending card is an Ace of the human hand: what fresh clicks on
    hand cards keep true. *)
Definition pendingOk (s : State) : Prop :=
  forall c, pendingAceCard s = Some c -> In c (playerHand s) /\ rank c = RA.

Definition Inv (s : State) : Prop := zonesOk s /\ pendingOk s.

(** A boolean test for distinct identifiers. *)
Fixpoint distinct (l : list string) : bool :=
  match l with
  | [] => true
  | x :: l' => negb (existsb (String.eqb x) l') && distinct l'
  end.

(** The intents of the presentation layer, dispatched to the handlers. *)
Inductive Intent := PlayCard (c : Card) | ChooseSuit (su : Suit) | Draw.

Definition dispatch (i : Intent) : State -> State :=
  match i with
  | PlayCard c => playCard c
  | ChooseSuit su => chooseSuit su
  | Draw => draw
  end.

(** An intent whose guard is not met. *)
Definition illegal (s : State) (i : Intent) : Prop :=
  match i with
  | PlayCard c =>
    turn s <> player \/ gameStatus s <> playing \/ canPlay s c = false
  | Draw => turn s <> player \/ gameStatus s <> playing
  | ChooseSuit _ => pendingAceCard s = None
  end.

(** The outcome of the terminal check on the two hands, as a status:
    the human hand is looked at first. *)
Definition terminal (pHand aHand : list Card) (old : GameStatus) : GameStatus :=
  match pHand, aHand with
  | [], _ => lost
  | _ :: _, [] => won
  | _ :: _, _ :: _ => old
  end.

Definition continues (pHand aHand : list Card) : bool :=
  match pHand, aHand with
  | _ :: _, _ :: _ => true
  | _, _ => false
  end.

(** The opponent's choice in the spec's words: the first card of the
    hand that is playable and not wild, else the first playable card. *)
Definition firstNonWildPlayable (s : State) : option Card :=
  find (fun c => canPlay s c && nonAce c) (aiHand s).

Definition firstPlayable (s : State) : option Card :=
  find (canPlay s) (aiHand s).

Definition preferredCard (s : State) : option Card :=
  match firstNonWildPlayable s with
  | Some c => Some c
  | None => firstPlayable s
  end.

(** How many cards of suit [su] a hand holds. *)
Definition holds (su : Suit) (hand : list Card) : nat :=
  length (filter (fun c => suit_eqb (suit c) su) hand).

(** The plays that take a card out of a hand: a human play of a
    non-Ace card, the completion of a human Ace play by a suit choice,
    and a play by the opponent.  The last component is the side the
    turn goes to when the game continues. *)
Inductive handReducingPlay : State -> State -> Turn -> Prop :=
| human_play s c :
    turn s = player -> gameStatus s = playing ->
    canPlay s c = true -> rank c <> RA ->
    handReducingPlay s (playCard c s) ai
| human_wild s su c :
    pendingAceCard s = Some c ->
    handReducingPlay s (chooseSuit su s) ai
| opponent_play s c :
    turn s = ai -> gameStatus s = playing ->
    cardToPlay s = Some c ->
    handReducingPlay s (aiMove s) player.

(** The table dealt from the unshuffled deck, a concrete state to run
    the handlers on. *)
Definition openingState : State :=
  Eval vm_compute in
  match startGame createDeck initialState with
  | Some s => s
  | None => initialState
  end.

(** The spec's scenario of a human holding a single King against a King
    on the discard pile. *)
Definition lastKingState : State :=
  mkState [card R2 clubs] [card RK diamonds]
          [card R9 clubs; card R3 hearts] [card RK spades]
          (Some spades) player playing false None
          "Your turn! Match the suit or rank." false.

(** Two tables on the opponent's turn: one where an Ace comes first in
    the hand but a playable 7 follows, one where an Ace is the only
    playable card. *)
Definition opponentTurnState : State :=
  mkState [card R5 hearts] [card RA spades]
          [card RA hearts; card R9 clubs; card R7 spades; card R3 diamonds]
          [card R7 clubs; card R7 hearts]
          (Some hearts) ai playing false None "AI is thinking..." false.

Definition opponentAceState : State :=
  mkState [card R5 hearts] [card RA spades]
          [card R9 clubs; card RA hearts; card R3 diamonds; card R2 diamonds]
          [card R7 clubs; card R7 hearts]
          (Some hearts) ai playing false None "AI is thinking..." false.

(** A table two moves into the game dealt from the unshuffled deck: the
    human has played the 8 of hearts and the opponent has answered. *)
Definition midGameState : State :=
  Eval vm_compute in aiMove (playCard (card R8 hearts) openingState).

(** ** Moves and traces *)

(** Everything that can happen to a dealt table short of a new deal: the
    three human intents, the opponent's effect and its timer callback,
    and a click on a card or suit button handled by the closure of an
    earlier render [snap]. *)
Inductive Move :=
| MPlay (c : Card) | MSuit (su : Suit) | MDraw | MThink | MAi
| MStalePlay (snap : State) (c : Card)
| MStaleSuit (snap : State) (su : Suit).

Definition card_eqb (a b : Card) : bool :=
  String.eqb (id a) (id b) && suit_eqb (suit a) (suit b)
  && rank_eqb (rank a) (rank b).

Definition move (m : Move) (s : State) : State :=
  match m with
  | MPlay c => playCard c s
  | MSuit su => chooseSuit su s
  | MDraw => draw s
  | MThink => run aiEffect s
  | MAi => aiMove s
  | MStalePlay snap c => runOn (handlePlayerPlay c) snap s
  | MStaleSuit snap su => runOn (handleSuitPick su) snap s
  end.

Fixpoint moves (ms : list Move) (s : State) : State :=
  match ms with
  | [] => s
  | m :: ms' => moves ms' (move m s)
  end.

(** A move handled by the closure of the current render. *)
Definition fresh (m : Move) : bool :=
  match m with
  | MStalePlay _ _ | MStaleSuit _ _ => false
  | _ => true
  end.

(** A trace in which every play is a fresh click on a card that is in
    the hand at that moment. *)
Fixpoint fair (ms : list Move) (s : State) : bool :=
  match ms with
  | [] => true
  | m :: ms' =>
    match m with
    | MPlay c => existsb (card_eqb c) (playerHand s)
    | _ => fresh m
    end && fair ms' (move m s)
  end.

(** The handler an intent is dispatched to. *)
Definition handler (i : Intent) : State -> Upd unit :=
  match i with
  | PlayCard c => handlePlayerPlay c
  | ChooseSuit su => handleSuitPick su
  | Draw => handleDraw
  end.

(** What the invariants below look at: two states with the same hands,
    status, top discard, effective suit and pending Ace. *)
Definition sameView (s s' : State) : Prop :=
  playerHand s' = playerHand s /\ aiHand s' = aiHand s
  /\ gameStatus s' = gameStatus s /\ topDiscard s' = topDiscard s
  /\ currentSuit s' = currentSuit s
  /\ showSuitPicker s' = showSuitPicker s
  /\ pendingAceCard s' = pendingAceCard s.

(** A pending card is an Ace. *)
Definition aceOk (s : State) : Prop :=
  forall c, pendingAceCard s = Some c -> rank c = RA.

(** The status the two hands call for. *)
Definition statusAgrees (s : State) : Prop :=
  gameStatus s = terminal (playerHand s) (aiHand s) playing.

(** The suit picker is open exactly while an Ace is pending. *)
Definition pickerAgrees (s : State) : Prop :=
  showSuitPicker s = match pendingAceCard s with Some _ => true | None => false end.

(** The effective suit is set, and is the suit of the top discard unless
    that card is an Ace. *)
Definition suitAgrees (s : State) : Prop :=
  exists top su,
    topDiscard s = Some top /\ currentSuit s = Some su
    /\ (rank top <> RA -> su = suit top).

(** What every reachable state satisfies. *)
Definition Good (s : State) : Prop :=
  statusAgrees s /\ suitAgrees s /\ pickerAgrees s /\ aceOk s.

(** What holds while the buttons left over by a suit choice made in
    [p], with the Ace [a] pending, are clicked. *)
Definition afterPick (p : State) (a : Card) (s : State) : Prop :=
  playerHand s = without a (playerHand p) /\ aiHand s = aiHand p
  /\ statusAgrees s /\ topDiscard s = Some a
  /\ (exists su, currentSuit s = Some su)
  /\ ((showSuitPicker s = false /\ pendingAceCard s = None)
      \/ (showSuitPicker s = true /\ pendingAceCard s = Some a)).

(** A table with an empty draw pile on which neither side can play. *)
Definition blockedState : State :=
  mkState [] [card R2 hearts; card R3 hearts]
          [card R4 diamonds; card R5 diamonds] [card RK spades]
          (Some spades) player playing false None
          "Your turn! Match the suit or rank." false.

(** A table on the opponent's turn with nothing to play and a playable
    card on top of the draw pile. *)
Definition opponentDrawState : State :=
  mkState [card R9 hearts; card R2 clubs] [card RA spades]
          [card R4 diamonds; card R5 clubs] [card R7 hearts]
          (Some hearts) ai playing false None "AI is thinking..." true.

(** A round of a blocked game: the human draws, the opponent moves. *)
Definition round (s : State) : State := aiMove (draw s).

(** Two states with the same table: piles, hands, effective suit, turn,
    status and pending Ace (the message and the thinking flag may
    differ). *)
Definition sameTable (s s' : State) : Prop :=
  deck s' = deck s /\ playerHand s' = playerHand s
  /\ aiHand s' = aiHand s /\ discardPile s' = discardPile s
  /\ currentSuit s' = currentSuit s /\ turn s' = turn s
  /\ gameStatus s' = gameStatus s
  /\ pendingAceCard s' = pendingAceCard s.

(** The table right after the human has clicked the Ace of hearts on the
    opening table. *)
Definition acePendingState : State :=
  Eval vm_compute in playCard (card RA hearts) openingState.

(** A table on the opponent's turn on which the human still has an Ace
    pending. *)
Definition pendingAceState : State :=
  mkState [card R5 hearts] [card RA spades; card R6 clubs]
          [card R9 clubs; card R3 diamonds] [card R7 clubs; card R7 hearts]
          (Some hearts) ai playing true (Some (card RA spades))
          "AI is thinking..." true.

(** Running the queued writes of a handler on a state given by its
    fields. *)
Ltac upd :=
  cbv [checkGameOver length Nat.eqb negb
       bind ret setDeck setPlayerHand setAiHand setDiscardPile
       setCurrentSuit setTurn setGameStatus setShowSuitPicker
       setPendingAceCard setMessage setIsAiThinking snd fst
       deck playerHand aiHand discardPile currentSuit turn gameStatus
       showSuitPicker pendingAceCard message isAiThinking].

(** The fields of a state given by its fields. *)
Ltac fields :=
  cbn [deck playerHand aiHand discardPile currentSuit turn gameStatus
       showSuitPicker pendingAceCard message isAiThinking] in *.

(** * Proofs *)

(** ** Decidable equalities *)

Lemma suit_eqb_eq a b : suit_eqb a b = true <-> a = b.
Proof. destruct a, b; simpl; split; congruence. Qed.

Lemma rank_eqb_eq a b : rank_eqb a b = true <-> a = b.
Proof. destruct a, b; simpl; split; congruence. Qed.

Lemma turn_eqb_eq a b : turn_eqb a b = true <-> a = b.
Proof. destruct a, b; simpl; split; congruence. Qed.

Lemma status_eqb_eq a b : status_eqb a b = true <-> a = b.
Proof. destruct a, b; simpl; split; congruence. Qed.

Lemma suit_eqb_refl a : suit_eqb a a = true.
Proof. now apply suit_eqb_eq. Qed.

Lemma suit_is_eq x cur : suit_is x cur = true <-> cur = Some x.
Proof.
  destruct cur as [y|]; simpl.
  - rewrite suit_eqb_eq. split; congruence.
  - split; discriminate.
Qed.

Lemma state_eta s :
  mkState (deck s) (playerHand s) (aiHand s) (discardPile s) (currentSuit s)
    (turn s) (gameStatus s) (showSuitPicker s) (pendingAceCard s)
    (message s) (isAiThinking s) = s.
Proof. now destruct s. Qed.

(** ** The top of the discard pile *)

Lemma last_index {A} (l : list A) (x : A) :
  nth_error (l ++ [x]) (length (l ++ [x]) - 1) = Some x.
Proof.
  rewrite length_app; simpl.
  replace (length l + 1 - 1) with (length l) by lia.
  rewrite nth_error_app2 by lia.
  now rewrite Nat.sub_diag.
Qed.

Lemma topDiscard_none s : topDiscard s = None <-> discardPile s = [].
Proof.
  unfold topDiscard. rewrite nth_error_None.
  destruct (discardPile s); simpl; split; intros; try easy; lia.
Qed.

Lemma topDiscard_some s :
  discardPile s <> [] -> exists top, topDiscard s = Some top.
Proof.
  intros H. destruct (topDiscard s) eqn:E; eauto.
  apply topDiscard_none in E. contradiction.
Qed.

(** ** [canPlay] *)

Lemma canPlay_true_iff s c top :
  topDiscard s = Some top ->
  canPlay s c = true <->
  rank c = RA \/ currentSuit s = Some (suit c) \/ rank c = rank top.
Proof.
  intros Htop. unfold canPlay. rewrite Htop.
  destruct (rank_eqb (rank c) RA) eqn:E.
  - apply rank_eqb_eq in E. tauto.
  - rewrite orb_true_iff, suit_is_eq, rank_eqb_eq.
    split; [tauto|]. intros [H|H]; [|tauto].
    apply rank_eqb_eq in H. congruence.
Qed.

Lemma canPlay_empty s c : discardPile s = [] -> canPlay s c = false.
Proof.
  intros H. apply topDiscard_none in H. unfold canPlay. now rewrite H.
Qed.

(** ** Claim C3: legality *)

(** C3, as the spec states it, fails before the first deal: with an
    empty discard pile [canPlay] rejects every card, an Ace included. *)
Lemma canPlay_ace_before_deal :
  ~ (canPlay initialState (card RA spades) = true <->
     rank (card RA spades) = RA
     \/ currentSuit initialState = Some (suit (card RA spades))
     \/ exists top, topDiscard initialState = Some top
                    /\ rank (card RA spades) = rank top).
Proof.
  intros [_ H]. assert (E : canPlay initialState (card RA spades) = true).
  { apply H. left. reflexivity. }
  discriminate E.
Qed.

(** C3 (amended): in every state whose discard pile has a top card,
    [canPlay card] holds exactly when the card is an Ace, or its suit is
    the current effective suit, or its rank is the rank of the top
    discard; in particular every Ace is playable there. *)
Theorem canPlay_spec (s : State) (c top : Card) :
  topDiscard s = Some top ->
  (canPlay s c = true <->
   rank c = RA \/ currentSuit s = Some (suit c) \/ rank c = rank top)
  /\ (rank c = RA -> canPlay s c = true).
Proof.
  intros Htop. pose proof (canPlay_true_iff s c top Htop) as H.
  split; [exact H|]. intros Hr. apply H. now left.
Qed.

Lemma canPlay_spec_witness :
  topDiscard openingState = Some (card R8 diamonds)
  /\ ((canPlay openingState (card RA hearts) = true <->
       rank (card RA hearts) = RA
       \/ currentSuit openingState = Some (suit (card RA hearts))
       \/ rank (card RA hearts) = rank (card R8 diamonds))
      /\ (rank (card RA hearts) = RA ->
          canPlay openingState (card RA hearts) = true)).
Proof.
  split; [reflexivity|].
  apply (canPlay_spec openingState (card RA hearts) (card R8 diamonds)).
  reflexivity.
Defined.

(** ** Claims C5 and C10: drawing *)

Lemma human_guard s :
  turn s = player -> gameStatus s = playing ->
  negb (turn_eqb (turn s) player)
  || negb (status_eqb (gameStatus s) playing) = false.
Proof. intros -> ->. reflexivity. Qed.

Lemma draw_empty s :
  turn s = player -> gameStatus s = playing -> deck s = [] ->
  draw s = snd (setTurn ai (snd (setMessage "Deck is empty! Skipping turn." s))).
Proof.
  intros Ht Hg Hd. unfold draw, run, runOn, handleDraw.
  rewrite (human_guard s Ht Hg), Hd. reflexivity.
Qed.

Lemma draw_card s top rest :
  turn s = player -> gameStatus s = playing -> deck s = top :: rest ->
  draw s =
  mkState rest (playerHand s ++ [top]) (aiHand s) (discardPile s)
    (currentSuit s) (if canPlay s top then player else ai) playing
    (showSuitPicker s) (pendingAceCard s)
    ("You drew a " ++ rank_str (rank top) ++ " of "
     ++ suit_str (suit top) ++ ".")%string
    (isAiThinking s).
Proof.
  intros Ht Hg Hd. unfold draw, run, runOn, handleDraw.
  rewrite (human_guard s Ht Hg), Hd.
  destruct (canPlay s top); destruct s; fields; subst; upd; reflexivity.
Qed.

(** C5: on the human's turn of a game in progress, drawing from an
    empty pile passes the turn and changes neither hand; otherwise the
    first card of the pile goes to the human hand, and the turn passes
    to the opponent exactly when that card is not playable (and stays
    with the human when it is). *)
Theorem draw_spec (s : State) :
  turn s = player -> gameStatus s = playing ->
  match deck s with
  | [] =>
    turn (draw s) = ai
    /\ playerHand (draw s) = playerHand s
    /\ aiHand (draw s) = aiHand s
  | top :: rest =>
    deck (draw s) = rest
    /\ playerHand (draw s) = playerHand s ++ [top]
    /\ (turn (draw s) = ai <-> canPlay s top = false)
    /\ (canPlay s top = true -> turn (draw s) = player)
  end.
Proof.
  intros Ht Hg. destruct (deck s) as [|top rest] eqn:Hd.
  - rewrite (draw_empty s Ht Hg Hd). simpl. auto.
  - rewrite (draw_card s top rest Ht Hg Hd). simpl.
    destruct (canPlay s top); repeat split; auto; discriminate.
Qed.

Lemma draw_spec_witness :
  turn openingState = player /\ gameStatus openingState = playing
  /\ match deck openingState with
     | [] =>
       turn (draw openingState) = ai
       /\ playerHand (draw openingState) = playerHand openingState
       /\ aiHand (draw openingState) = aiHand openingState
     | top :: rest =>
       deck (draw openingState) = rest
       /\ playerHand (draw openingState) = playerHand openingState ++ [top]
       /\ (turn (draw openingState) = ai <-> canPlay openingState top = false)
       /\ (canPlay openingState top = true -> turn (draw openingState) = player)
     end.
Proof.
  split; [reflexivity|]. split; [reflexivity|].
  apply (draw_spec openingState); reflexivity.
Defined.

(** C10: on the human's turn of a game in progress with a non-empty
    draw pile, drawing takes exactly the first card off the pile and
    appends exactly that card to the human hand, and leaves the discard
    pile, the effective suit, the opponent hand, the game status and the
    pending-Ace state (the pending card and the picker flag) as they
    were. *)
Theorem draw_frame (s : State) (top : Card) (rest : list Card) :
  turn s = player -> gameStatus s = playing -> deck s = top :: rest ->
  deck (draw s) = rest
  /\ playerHand (draw s) = playerHand s ++ [top]
  /\ discardPile (draw s) = discardPile s
  /\ currentSuit (draw s) = currentSuit s
  /\ aiHand (draw s) = aiHand s
  /\ gameStatus (draw s) = gameStatus s
  /\ pendingAceCard (draw s) = pendingAceCard s
  /\ showSuitPicker (draw s) = showSuitPicker s.
Proof.
  intros Ht Hg Hd. rewrite (draw_card s top rest Ht Hg Hd). simpl.
  rewrite Hg. repeat split.
Qed.

Lemma draw_frame_witness :
  turn openingState = player /\ gameStatus openingState = playing
  /\ deck openingState = card R9 diamonds :: tl (deck openingState)
  /\ deck (draw openingState) = tl (deck openingState)
  /\ playerHand (draw openingState)
     = playerHand openingState ++ [card R9 diamonds]
  /\ discardPile (draw openingState) = discardPile openingState
  /\ currentSuit (draw openingState) = currentSuit openingState
  /\ aiHand (draw openingState) = aiHand openingState
  /\ gameStatus (draw openingState) = gameStatus openingState
  /\ pendingAceCard (draw openingState) = pendingAceCard openingState
  /\ showSuitPicker (draw openingState) = showSuitPicker openingState.
Proof.
  split; [reflexivity|]. split; [reflexivity|]. split; [reflexivity|].
  apply (draw_frame openingState (card R9 diamonds) (tl (deck openingState)));
    reflexivity.
Defined.

(** ** Claim C9: dealing *)

Lemma skipn_nth_error {A} (l : list A) (n : nat) (x : A) :
  nth_error l n = Some x -> skipn n l = x :: skipn (S n) l.
Proof.
  revert l. induction n as [|n IH]; intros [|y l] H; try discriminate.
  - simpl in H. now inversion H.
  - simpl in H. apply IH in H. exact H.
Qed.

Lemma deal_split (d : list Card) (c : Card) :
  nth_error d 20 = Some c ->
  d = slice 0 10 d ++ slice 10 20 d ++ [c] ++ slice_from 21 d.
Proof.
  intros H. unfold slice, slice_from.
  change (20 - 10) with 10. change (10 - 0) with 10.
  change (skipn 0 d) with d.
  change ([c] ++ skipn 21 d) with (c :: skipn 21 d).
  rewrite <- (skipn_nth_error d 20 c H).
  replace (skipn 20 d) with (skipn 10 (skipn 10 d))
    by (now rewrite skipn_skipn).
  now rewrite !firstn_skipn.
Qed.

(** The state a deal builds, whatever the state before. *)
Lemma startGame_some d s0 c :
  nth_error d 20 = Some c ->
  startGame d s0 =
  Some (mkState (slice_from 21 d) (slice 0 10 d) (slice 10 20 d) [c]
          (Some (suit c)) player playing false None
          "Your turn! Match the suit or rank." false)
  /\ forall s, startGame d s0 = Some s ->
       deck s = slice_from 21 d /\ playerHand s = slice 0 10 d
       /\ aiHand s = slice 10 20 d /\ discardPile s = [c]
       /\ pendingAceCard s = None.
Proof.
  intros Hc.
  assert (E : startGame d s0 =
    Some (mkState (slice_from 21 d) (slice 0 10 d) (slice 10 20 d) [c]
          (Some (suit c)) player playing false None
          "Your turn! Match the suit or rank." false)).
  { unfold startGame, initGame. rewrite Hc. destruct s0. upd. reflexivity. }
  split; [exact E|]. intros s H. rewrite E in H. inversion H; subst.
  repeat split.
Qed.

Lemma startGame_none d s0 : nth_error d 20 = None -> startGame d s0 = None.
Proof. intros H. unfold startGame, initGame. now rewrite H. Qed.

(** C9: a start or restart from any state, with a shuffled deck of 52
    cards, deals the first 10 cards to the human, the next 10 to the
    opponent, makes the 21st card the only discard and its suit the
    effective suit, and leaves the other 31 cards as the draw pile:
    10 + 10 + 1 + 31 = 52 cards, in deck order. *)
Theorem deal_spec (fullDeck : list Card) (s0 : State) :
  length fullDeck = 52 ->
  exists s initialDiscard,
    startGame fullDeck s0 = Some s
    /\ nth_error fullDeck 20 = Some initialDiscard
    /\ playerHand s = firstn 10 fullDeck
    /\ aiHand s = firstn 10 (skipn 10 fullDeck)
    /\ discardPile s = [initialDiscard]
    /\ currentSuit s = Some (suit initialDiscard)
    /\ deck s = skipn 21 fullDeck
    /\ length (playerHand s) = 10 /\ length (aiHand s) = 10
    /\ length (discardPile s) = 1 /\ length (deck s) = 31
    /\ fullDeck = playerHand s ++ aiHand s ++ discardPile s ++ deck s
    /\ turn s = player /\ gameStatus s = playing
    /\ pendingAceCard s = None.
Proof.
  intros Hlen.
  destruct (nth_error fullDeck 20) as [c|] eqn:Hc.
  2:{ apply nth_error_None in Hc. lia. }
  destruct (startGame_some fullDeck s0 c Hc) as [E _]. rewrite E.
  eexists. exists c. split; [reflexivity|]. fields.
  unfold slice, slice_from.
  change (20 - 10) with 10. change (10 - 0) with 10.
  change (skipn 0 fullDeck) with fullDeck.
  repeat split.
  - rewrite length_firstn. lia.
  - rewrite length_firstn, length_skipn. lia.
  - rewrite length_skipn. lia.
  - exact (deal_split fullDeck c Hc).
Qed.

Lemma deal_spec_witness :
  length createDeck = 52
  /\ exists s initialDiscard,
    startGame createDeck initialState = Some s
    /\ nth_error createDeck 20 = Some initialDiscard
    /\ playerHand s = firstn 10 createDeck
    /\ aiHand s = firstn 10 (skipn 10 createDeck)
    /\ discardPile s = [initialDiscard]
    /\ currentSuit s = Some (suit initialDiscard)
    /\ deck s = skipn 21 createDeck
    /\ length (playerHand s) = 10 /\ length (aiHand s) = 10
    /\ length (discardPile s) = 1 /\ length (deck s) = 31
    /\ createDeck = playerHand s ++ aiHand s ++ discardPile s ++ deck s
    /\ turn s = player /\ gameStatus s = playing
    /\ pendingAceCard s = None.
Proof.
  split; [reflexivity|].
  apply (deal_spec createDeck initialState). reflexivity.
Defined.

(** ** Claim C2: the terminal check *)

Lemma play_guard s c :
  turn s = player -> gameStatus s = playing -> canPlay s c = true ->
  negb (turn_eqb (turn s) player)
  || negb (status_eqb (gameStatus s) playing)
  || negb (canPlay s c) = false.
Proof. intros -> -> ->. reflexivity. Qed.

Lemma checkGameOver_run pHand aHand q :
  checkGameOver pHand aHand q =
  (negb (continues pHand aHand),
   match pHand, aHand with
   | [], _ =>
     snd (setMessage "You cleared your hand first... You LOSE!"
            (snd (setGameStatus lost q)))
   | _ :: _, [] =>
     snd (setMessage "AI cleared its hand first... You WIN!"
            (snd (setGameStatus won q)))
   | _ :: _, _ :: _ => q
   end).
Proof. destruct pHand, aHand; reflexivity. Qed.

Lemma playCard_plain s c :
  turn s = player -> gameStatus s = playing ->
  canPlay s c = true -> rank c <> RA ->
  let newHand := without c (playerHand s) in
  playerHand (playCard c s) = newHand
  /\ aiHand (playCard c s) = aiHand s
  /\ deck (playCard c s) = deck s
  /\ discardPile (playCard c s) = discardPile s ++ [c]
  /\ currentSuit (playCard c s) = Some (suit c)
  /\ pendingAceCard (playCard c s) = pendingAceCard s
  /\ gameStatus (playCard c s) = terminal newHand (aiHand s) playing
  /\ turn (playCard c s) = if continues newHand (aiHand s) then ai else player.
Proof.
  intros Ht Hg Hc Hr newHand. subst newHand.
  unfold playCard, run, runOn, handlePlayerPlay.
  rewrite (play_guard s c Ht Hg Hc).
  destruct (rank_eqb (rank c) RA) eqn:E.
  { apply rank_eqb_eq in E. contradiction. }
  destruct (without c (playerHand s)), (aiHand s) eqn:Ha;
    destruct s; fields; subst; upd; cbn [terminal continues];
    repeat split.
Qed.

Lemma chooseSuit_pending s su c :
  pendingAceCard s = Some c ->
  let newHand := without c (playerHand s) in
  playerHand (chooseSuit su s) = newHand
  /\ aiHand (chooseSuit su s) = aiHand s
  /\ deck (chooseSuit su s) = deck s
  /\ discardPile (chooseSuit su s) = discardPile s ++ [c]
  /\ currentSuit (chooseSuit su s) = Some su
  /\ pendingAceCard (chooseSuit su s) = None
  /\ showSuitPicker (chooseSuit su s) = false
  /\ gameStatus (chooseSuit su s) = terminal newHand (aiHand s) (gameStatus s)
  /\ turn (chooseSuit su s) = if continues newHand (aiHand s) then ai else turn s.
Proof.
  intros Hp newHand. subst newHand.
  unfold chooseSuit, run, runOn, handleSuitPick. rewrite Hp.
  destruct (without c (playerHand s)), (aiHand s) eqn:Ha;
    destruct s; fields; subst; upd; cbn [terminal continues];
    repeat split.
Qed.

Lemma ai_guard s :
  turn s = ai -> gameStatus s = playing -> aiScheduled s = true.
Proof. unfold aiScheduled. intros -> ->. reflexivity. Qed.

Lemma aiMove_play s c :
  turn s = ai -> gameStatus s = playing -> cardToPlay s = Some c ->
  let newAiHand := without c (aiHand s) in
  aiHand (aiMove s) = newAiHand
  /\ playerHand (aiMove s) = playerHand s
  /\ deck (aiMove s) = deck s
  /\ discardPile (aiMove s) = discardPile s ++ [c]
  /\ currentSuit (aiMove s)
     = Some (if rank_eqb (rank c) RA then bestSuit newAiHand else suit c)
  /\ pendingAceCard (aiMove s) = pendingAceCard s
  /\ gameStatus (aiMove s) = terminal (playerHand s) newAiHand playing
  /\ turn (aiMove s) = if continues (playerHand s) newAiHand then player else ai.
Proof.
  intros Ht Hg Hc newAiHand. subst newAiHand.
  unfold aiMove. rewrite (ai_guard s Ht Hg).
  unfold run, runOn, aiTimeout. rewrite Hc.
  destruct (rank_eqb (rank c) RA);
    destruct (playerHand s) eqn:Hp, (without c (aiHand s));
    destruct s; fields; subst; upd; cbn [terminal continues];
    repeat split.
Qed.

(** C2: every play that takes a card out of a hand is followed at once
    by the terminal check, which looks at the human hand first: the
    status becomes [lost] when the human hand is empty, else [won] when
    the opponent hand is empty, else stays what it was (in progress for
    a game in progress); the turn is handed over only when the game
    continues, and is left alone when the check ends the game. *)
Theorem terminal_check_after_play (s s' : State) (next : Turn) :
  handReducingPlay s s' next ->
  gameStatus s' = terminal (playerHand s') (aiHand s') (gameStatus s)
  /\ turn s' = (if continues (playerHand s') (aiHand s') then next else turn s)
  /\ (playerHand s' = [] -> gameStatus s' = lost)
  /\ (playerHand s' <> [] -> aiHand s' = [] -> gameStatus s' = won)
  /\ (playerHand s' <> [] -> aiHand s' <> [] ->
      gameStatus s = playing -> gameStatus s' = playing /\ turn s' = next).
Proof.
  intros H.
  assert (G : gameStatus s'
              = terminal (playerHand s') (aiHand s') (gameStatus s)
              /\ turn s' = (if continues (playerHand s') (aiHand s')
                            then next else turn s)).
  { destruct H as [s c Ht Hg Hc Hr|s su c Hp|s c Ht Hg Hc].
    - destruct (playCard_plain s c Ht Hg Hc Hr)
        as (E1 & E2 & _ & _ & _ & _ & E3 & E4).
      rewrite E1, E2, E3, E4, Hg, Ht. auto.
    - destruct (chooseSuit_pending s su c Hp)
        as (E1 & E2 & _ & _ & _ & _ & _ & E3 & E4).
      rewrite E1, E2, E3, E4. auto.
    - destruct (aiMove_play s c Ht Hg Hc)
        as (E1 & E2 & _ & _ & _ & _ & E3 & E4).
      rewrite E1, E2, E3, E4, Hg, Ht. auto. }
  destruct G as [G1 G2]. rewrite G1, G2.
  destruct (playerHand s'), (aiHand s'); simpl; repeat split;
    intros; try congruence.
Qed.

Lemma terminal_check_after_play_witness :
  let s := lastKingState in
  let s' := playCard (card RK diamonds) lastKingState in
  handReducingPlay s s' ai
  /\ gameStatus s' = terminal (playerHand s') (aiHand s') (gameStatus s)
  /\ turn s' = (if continues (playerHand s') (aiHand s') then ai else turn s)
  /\ (playerHand s' = [] -> gameStatus s' = lost)
  /\ (playerHand s' <> [] -> aiHand s' = [] -> gameStatus s' = won)
  /\ (playerHand s' <> [] -> aiHand s' <> [] ->
      gameStatus s = playing -> gameStatus s' = playing /\ turn s' = ai).
Proof.
  intros s s'.
  assert (H : handReducingPlay s s' ai).
  { apply human_play; [reflexivity | reflexivity | reflexivity | discriminate]. }
  split; [exact H|]. exact (terminal_check_after_play s s' ai H).
Defined.

(** ** Removing a card by identifier *)

Lemma without_notin (c : Card) (l : list Card) :
  ~ In (id c) (ids l) -> without c l = l.
Proof.
  induction l as [|x l IH]; simpl; intros H; [reflexivity|].
  destruct (String.eqb (id x) (id c)) eqn:E; simpl.
  - apply String.eqb_eq in E. tauto.
  - f_equal. apply IH. tauto.
Qed.

Lemma without_app (c : Card) (l1 l2 : list Card) :
  without c (l1 ++ l2) = without c l1 ++ without c l2.
Proof. apply filter_app. Qed.

Lemma without_split (c : Card) (l : list Card) :
  NoDup (ids l) -> In c l ->
  exists l1 l2, l = l1 ++ c :: l2 /\ without c l = l1 ++ l2.
Proof.
  intros Hnd Hin. destruct (in_split c l Hin) as (l1 & l2 & ->).
  exists l1, l2. split; [reflexivity|].
  unfold ids in Hnd. rewrite map_app in Hnd. simpl in Hnd.
  pose proof (NoDup_remove_2 _ _ _ Hnd) as Hno.
  rewrite in_app_iff in Hno.
  rewrite without_app. simpl. rewrite String.eqb_refl. simpl.
  rewrite !without_notin; [reflexivity | tauto | tauto].
Qed.

Lemma without_perm (c : Card) (l : list Card) :
  NoDup (ids l) -> In c l -> Permutation l (c :: without c l).
Proof.
  intros Hnd Hin. destruct (without_split c l Hnd Hin) as (l1 & l2 & E1 & E2).
  rewrite E2. rewrite E1 at 1. symmetry. apply Permutation_middle.
Qed.

(** ** Claim C4: the deferred Ace play *)

Lemma playCard_ace s c :
  turn s = player -> gameStatus s = playing ->
  canPlay s c = true -> rank c = RA ->
  playCard c s =
  mkState (deck s) (playerHand s) (aiHand s) (discardPile s) (currentSuit s)
    (turn s) (gameStatus s) true (Some c) (message s) (isAiThinking s).
Proof.
  intros Ht Hg Hc Hr. unfold playCard, run, runOn, handlePlayerPlay.
  rewrite (play_guard s c Ht Hg Hc), Hr.
  destruct s; upd; reflexivity.
Qed.

(** C4: a human play of a playable Ace changes nothing on the table --
    hand, discard pile, effective suit and turn owner (and draw pile,
    opponent hand and status) stay -- and records the Ace as pending
    with the suit picker open.  The suit choice that follows takes the
    pending Ace out of the hand, appends it to the discard pile, makes
    the chosen suit the effective suit, clears the pending state, runs
    the terminal check, and gives the turn to the opponent when the game
    continues. *)
Theorem ace_play_deferred (s : State) (c : Card) (su : Suit) :
  turn s = player -> gameStatus s = playing ->
  canPlay s c = true -> rank c = RA ->
  let s1 := playCard c s in
  let s2 := chooseSuit su s1 in
  (playerHand s1 = playerHand s /\ discardPile s1 = discardPile s
   /\ currentSuit s1 = currentSuit s /\ turn s1 = turn s
   /\ deck s1 = deck s /\ aiHand s1 = aiHand s
   /\ gameStatus s1 = gameStatus s
   /\ pendingAceCard s1 = Some c /\ showSuitPicker s1 = true)
  /\ (playerHand s2 = without c (playerHand s)
      /\ discardPile s2 = discardPile s ++ [c]
      /\ currentSuit s2 = Some su
      /\ pendingAceCard s2 = None /\ showSuitPicker s2 = false
      /\ deck s2 = deck s /\ aiHand s2 = aiHand s
      /\ gameStatus s2 = terminal (playerHand s2) (aiHand s2) playing
      /\ turn s2 = if continues (playerHand s2) (aiHand s2) then ai else player)
  /\ (In c (playerHand s) -> NoDup (ids (playerHand s)) ->
      exists l1 l2, playerHand s = l1 ++ c :: l2 /\ playerHand s2 = l1 ++ l2).
Proof.
  intros Ht Hg Hc Hr s1 s2.
  assert (E1 : s1 = mkState (deck s) (playerHand s) (aiHand s) (discardPile s)
                 (currentSuit s) (turn s) (gameStatus s) true (Some c)
                 (message s) (isAiThinking s))
    by (apply playCard_ace; assumption).
  assert (Hp : pendingAceCard s1 = Some c) by (now rewrite E1).
  destruct (chooseSuit_pending s1 su c Hp)
    as (F1 & F2 & F3 & F4 & F5 & F6 & F7 & F8 & F9).
  fold s2 in F1, F2, F3, F4, F5, F6, F7, F8, F9.
  assert (Hh : playerHand s1 = playerHand s) by (now rewrite E1).
  assert (Ha : aiHand s1 = aiHand s) by (now rewrite E1).
  assert (Hs : gameStatus s1 = playing) by (now rewrite E1).
  assert (Hu : turn s1 = player) by (now rewrite E1).
  assert (Hx : discardPile s1 = discardPile s) by (now rewrite E1).
  assert (Hd : deck s1 = deck s) by (now rewrite E1).
  split; [|split].
  - rewrite E1. fields. repeat split.
  - rewrite F1, F2, F3, F4, F5, F6, F7, F8, F9.
    rewrite Hh, Ha, Hs, Hu, Hx, Hd. repeat split.
  - intros Hin Hnd. rewrite F1, Hh. now apply without_split.
Qed.

Lemma ace_play_deferred_witness :
  let s := openingState in
  let c := card RA hearts in
  let s1 := playCard c s in
  let s2 := chooseSuit clubs s1 in
  (turn s = player /\ gameStatus s = playing
   /\ canPlay s c = true /\ rank c = RA)
  /\ (playerHand s1 = playerHand s /\ discardPile s1 = discardPile s
   /\ currentSuit s1 = currentSuit s /\ turn s1 = turn s
   /\ deck s1 = deck s /\ aiHand s1 = aiHand s
   /\ gameStatus s1 = gameStatus s
   /\ pendingAceCard s1 = Some c /\ showSuitPicker s1 = true)
  /\ (playerHand s2 = without c (playerHand s)
      /\ discardPile s2 = discardPile s ++ [c]
      /\ currentSuit s2 = Some clubs
      /\ pendingAceCard s2 = None /\ showSuitPicker s2 = false
      /\ deck s2 = deck s /\ aiHand s2 = aiHand s
      /\ gameStatus s2 = terminal (playerHand s2) (aiHand s2) playing
      /\ turn s2 = if continues (playerHand s2) (aiHand s2) then ai else player)
  /\ (In c (playerHand s) -> NoDup (ids (playerHand s)) ->
      exists l1 l2, playerHand s = l1 ++ c :: l2 /\ playerHand s2 = l1 ++ l2).
Proof.
  intros s c s1 s2.
  split; [repeat split|].
  exact (ace_play_deferred openingState (card RA hearts) clubs
           eq_refl eq_refl eq_refl eq_refl).
Defined.

(** ** Claim C7: the opponent's choice of card *)

Lemma find_filter {A} (p q : A -> bool) (l : list A) :
  find p (filter q l) = find (fun x => q x && p x) l.
Proof.
  induction l as [|x l IH]; simpl; [reflexivity|].
  destruct (q x); simpl; [|exact IH].
  destruct (p x); [reflexivity | exact IH].
Qed.

Lemma head_filter {A} (q : A -> bool) (l : list A) :
  match filter q l with [] => None | x :: _ => Some x end = find q l.
Proof.
  induction l as [|x l IH]; simpl; [reflexivity|].
  destruct (q x); [reflexivity | exact IH].
Qed.

Lemma cardToPlay_preferred s : cardToPlay s = preferredCard s.
Proof.
  unfold cardToPlay, preferredCard, firstNonWildPlayable, firstPlayable, pick.
  rewrite <- (find_filter nonAce (canPlay s) (aiHand s)).
  rewrite <- (head_filter (canPlay s) (aiHand s)).
  destruct (filter (canPlay s) (aiHand s)) as [|x l]; [reflexivity|].
  now destruct (find nonAce (x :: l)).
Qed.

Lemma find_nonAce_none s c :
  firstNonWildPlayable s = None -> firstPlayable s = Some c -> rank c = RA.
Proof.
  unfold firstNonWildPlayable, firstPlayable. intros Hn Hf.
  apply find_some in Hf. destruct Hf as [Hin Hc].
  pose proof (find_none _ _ Hn c Hin) as H. simpl in H.
  rewrite Hc in H. simpl in H. unfold nonAce in H.
  apply negb_false_iff in H. now apply rank_eqb_eq.
Qed.

(** C7: on the opponent's turn of a game in progress, when some card of
    the opponent hand is playable, the card that goes from the hand to
    the discard pile is the first playable non-Ace card in hand order
    if there is one, and otherwise the first playable card in hand
    order, which is then an Ace. *)
Theorem opponent_choice (s : State) :
  turn s = ai -> gameStatus s = playing ->
  filter (canPlay s) (aiHand s) <> [] ->
  exists c,
    preferredCard s = Some c
    /\ In c (aiHand s) /\ canPlay s c = true
    /\ discardPile (aiMove s) = discardPile s ++ [c]
    /\ aiHand (aiMove s) = without c (aiHand s)
    /\ (firstNonWildPlayable s = None ->
        rank c = RA /\ firstPlayable s = Some c)
    /\ (forall c', firstNonWildPlayable s = Some c' -> c = c' /\ rank c <> RA).
Proof.
  intros Ht Hg Hne.
  destruct (cardToPlay s) as [c|] eqn:Hc.
  2:{ unfold cardToPlay in Hc.
      destruct (filter (canPlay s) (aiHand s)); [contradiction|discriminate]. }
  exists c. pose proof Hc as Hp. rewrite cardToPlay_preferred in Hp.
  destruct (aiMove_play s c Ht Hg Hc) as (E1 & _ & _ & E2 & _).
  assert (Hin : In c (aiHand s) /\ canPlay s c = true).
  { unfold preferredCard, firstNonWildPlayable, firstPlayable in Hp.
    destruct (find _ (aiHand s)) eqn:F in Hp.
    - inversion Hp; subst. apply find_some in F. destruct F as [F1 F2].
      apply andb_true_iff in F2. tauto.
    - now apply find_some in Hp. }
  repeat split; try tauto; try assumption.
  - apply (find_nonAce_none s c H).
    unfold preferredCard in Hp. now rewrite H in Hp.
  - unfold preferredCard in Hp. now rewrite H in Hp.
  - unfold preferredCard in Hp. rewrite H in Hp. congruence.
  - unfold preferredCard in Hp. rewrite H in Hp. inversion Hp; subst.
    unfold firstNonWildPlayable in H. apply find_some in H.
    destruct H as [_ H]. apply andb_true_iff in H. destruct H as [_ H].
    unfold nonAce in H. intros Hr. rewrite Hr in H. discriminate.
Qed.

Lemma opponent_choice_witness :
  let s := opponentTurnState in
  (turn s = ai /\ gameStatus s = playing
   /\ filter (canPlay s) (aiHand s) <> [])
  /\ exists c,
    preferredCard s = Some c
    /\ In c (aiHand s) /\ canPlay s c = true
    /\ discardPile (aiMove s) = discardPile s ++ [c]
    /\ aiHand (aiMove s) = without c (aiHand s)
    /\ (firstNonWildPlayable s = None ->
        rank c = RA /\ firstPlayable s = Some c)
    /\ (forall c', firstNonWildPlayable s = Some c' -> c = c' /\ rank c <> RA).
Proof.
  intros s.
  assert (Hne : filter (canPlay s) (aiHand s) <> []) by discriminate.
  split; [repeat split; exact Hne|].
  exact (opponent_choice opponentTurnState eq_refl eq_refl Hne).
Defined.

(** ** Claim C8: the suit the opponent names after an Ace *)

Lemma get_set m k v k' :
  get (set m k v) k' = if suit_eqb k k' then Some v else get m k'.
Proof.
  induction m as [|[k0 n] m IH]; simpl.
  - reflexivity.
  - destruct (suit_eqb k0 k) eqn:E; simpl.
    + apply suit_eqb_eq in E; subst k0.
      now destruct (suit_eqb k k').
    + rewrite IH. destruct (suit_eqb k0 k') eqn:E'; [|reflexivity].
      apply suit_eqb_eq in E'; subst k0.
      destruct (suit_eqb k k') eqn:E''; [|reflexivity].
      apply suit_eqb_eq in E''; subst k'. rewrite suit_eqb_refl in E.
      discriminate.
Qed.

Lemma in_keys_get m k : In k (keys m) <-> get m k <> None.
Proof.
  induction m as [|[k0 n] m IH]; simpl.
  - split; [tauto | congruence].
  - destruct (suit_eqb k0 k) eqn:E.
    + apply suit_eqb_eq in E. split; [discriminate | auto].
    + rewrite <- IH. split; [|tauto]. intros [H|H]; [|exact H].
      subst k0. rewrite suit_eqb_refl in E. discriminate.
Qed.

Lemma get_or_0_countCard m c su :
  get_or_0 (countCard m c) su
  = get_or_0 m su + (if suit_eqb (suit c) su then 1 else 0).
Proof.
  unfold countCard, get_or_0 at 1. rewrite get_set.
  destruct (suit_eqb (suit c) su) eqn:E.
  - apply suit_eqb_eq in E. now subst su.
  - fold (get_or_0 m su). lia.
Qed.

Lemma get_or_0_fold hand : forall m su,
  get_or_0 (fold_left countCard hand m) su = get_or_0 m su + holds su hand.
Proof.
  induction hand as [|c hand IH]; intros m su; simpl.
  - unfold holds. simpl. lia.
  - rewrite IH, get_or_0_countCard. unfold holds. simpl.
    destruct (suit_eqb (suit c) su); simpl; lia.
Qed.

Lemma get_or_0_countSuits hand su :
  get_or_0 (countSuits hand) su = holds su hand.
Proof. unfold countSuits. now rewrite get_or_0_fold. Qed.

(** Every key of the counting object was written by some card. *)
Lemma keys_fold hand : forall m su,
  In su (keys (fold_left countCard hand m)) ->
  In su (keys m) \/ 0 < holds su hand.
Proof.
  induction hand as [|c hand IH]; intros m su H; simpl in H.
  - now left.
  - apply IH in H. unfold holds. simpl.
    destruct (suit_eqb (suit c) su) eqn:E; simpl; [right; lia|].
    destruct H as [H|H]; [|now right]. left.
    apply in_keys_get in H. apply in_keys_get.
    unfold countCard in H. rewrite get_set, E in H. exact H.
Qed.

Lemma keys_countSuits_pos hand su :
  In su (keys (countSuits hand)) -> 0 < holds su hand.
Proof.
  intros H. apply keys_fold in H. now destruct H.
Qed.

Lemma keys_fold_mono hand : forall m su,
  In su (keys m) -> In su (keys (fold_left countCard hand m)).
Proof.
  induction hand as [|c hand IH]; intros m su H; simpl; [exact H|].
  apply IH. apply in_keys_get. apply in_keys_get in H.
  unfold countCard. rewrite get_set.
  now destruct (suit_eqb (suit c) su).
Qed.

Lemma keys_countSuits_nonempty c hand :
  In (suit c) (keys (countSuits (c :: hand))).
Proof.
  unfold countSuits. simpl. apply keys_fold_mono.
  apply in_keys_get. unfold countCard. simpl.
  now rewrite suit_eqb_refl.
Qed.

(** The first element of the sorted keys is a key of greatest count. *)
Lemma sort_head m (l : list Suit) :
  match sort (byCountDesc m) l with
  | [] => l = []
  | h :: _ => In h l /\ forall y, In y l -> get_or_0 m y <= get_or_0 m h
  end.
Proof.
  induction l as [|x l IH]; simpl; [reflexivity|].
  destruct (sort (byCountDesc m) l) as [|h t]; simpl.
  - subst l. split; [now left|]. intros y [->|[]]. lia.
  - destruct IH as [Hin Hmax].
    destruct (byCountDesc m x h <=? 0)%Z eqn:E.
    + apply Z.leb_le in E. unfold byCountDesc in E.
      split; [now left|]. intros y [->|Hy]; [lia|].
      specialize (Hmax y Hy). lia.
    + apply Z.leb_gt in E. unfold byCountDesc in E.
      split; [now right|]. intros y [->|Hy]; [lia|].
      now apply Hmax.
Qed.

Lemma bestSuit_empty : bestSuit [] = hearts.
Proof. reflexivity. Qed.

Lemma bestSuit_most hand :
  hand <> [] ->
  0 < holds (bestSuit hand) hand
  /\ forall su, holds su hand <= holds (bestSuit hand) hand.
Proof.
  intros Hne. unfold bestSuit.
  pose proof (sort_head (countSuits hand) (keys (countSuits hand))) as H.
  destruct (sort _ (keys (countSuits hand))) as [|h t].
  - destruct hand as [|c hand]; [contradiction|].
    pose proof (keys_countSuits_nonempty c hand) as K.
    rewrite H in K. destruct K.
  - destruct H as [Hin Hmax].
    pose proof (keys_countSuits_pos hand h Hin) as Hpos.
    split; [exact Hpos|]. intros su.
    destruct (get (countSuits hand) su) eqn:G.
    + assert (K : In su (keys (countSuits hand))).
      { apply in_keys_get. congruence. }
      specialize (Hmax su K). now rewrite !get_or_0_countSuits in Hmax.
    + assert (Z0 : get_or_0 (countSuits hand) su = 0).
      { unfold get_or_0. now rewrite G. }
      rewrite get_or_0_countSuits in Z0. lia.
Qed.

(** C8: when the opponent plays an Ace, the effective suit becomes a
    suit of which the hand that remains after the play holds at least
    as many cards as of any other suit (and at least one); when no card
    remains, it becomes hearts. *)
Theorem opponent_ace_suit (s : State) (c : Card) :
  turn s = ai -> gameStatus s = playing ->
  cardToPlay s = Some c -> rank c = RA ->
  let remaining := without c (aiHand s) in
  aiHand (aiMove s) = remaining
  /\ exists best,
       currentSuit (aiMove s) = Some best
       /\ (remaining = [] -> best = hearts)
       /\ (remaining <> [] ->
           0 < holds best remaining
           /\ forall su, holds su remaining <= holds best remaining).
Proof.
  intros Ht Hg Hc Hr remaining.
  destruct (aiMove_play s c Ht Hg Hc) as (E1 & _ & _ & _ & E2 & _).
  fold remaining in E1, E2. rewrite Hr in E2. simpl in E2.
  split; [exact E1|]. exists (bestSuit remaining).
  split; [exact E2|]. split.
  - intros ->. apply bestSuit_empty.
  - apply bestSuit_most.
Qed.

Lemma opponent_ace_suit_witness :
  let s := opponentAceState in
  let c := card RA hearts in
  let remaining := without c (aiHand s) in
  (turn s = ai /\ gameStatus s = playing
   /\ cardToPlay s = Some c /\ rank c = RA)
  /\ aiHand (aiMove s) = remaining
  /\ exists best,
       currentSuit (aiMove s) = Some best
       /\ (remaining = [] -> best = hearts)
       /\ (remaining <> [] ->
           0 < holds best remaining
           /\ forall su, holds su remaining <= holds best remaining).
Proof.
  intros s c remaining.
  split; [repeat split|].
  exact (opponent_ace_suit opponentAceState (card RA hearts)
           eq_refl eq_refl eq_refl eq_refl).
Defined.

(** ** Claim C1: the 52 cards *)

Lemma distinct_NoDup (l : list string) : distinct l = true -> NoDup l.
Proof.
  induction l as [|x l IH]; simpl; intros H; constructor.
  - apply andb_true_iff in H. destruct H as [H _].
    apply negb_true_iff in H. intros Hin.
    assert (E : existsb (String.eqb x) l = true).
    { apply existsb_exists. exists x. split; [exact Hin|apply String.eqb_refl]. }
    congruence.
  - apply IH. apply andb_true_iff in H. tauto.
Qed.

Lemma createDeck_ok : fullDeckOk createDeck.
Proof.
  split; [reflexivity|]. apply distinct_NoDup. vm_compute. reflexivity.
Qed.

Lemma ids_inj (l : list Card) (a b : Card) :
  NoDup (ids l) -> In a l -> In b l -> id a = id b -> a = b.
Proof.
  induction l as [|x l IH]; simpl; intros Hnd Ha Hb E; [contradiction|].
  inversion Hnd as [|? ? Hx Hl]; subst.
  destruct Ha as [->|Ha], Hb as [->|Hb]; auto.
  - exfalso. apply Hx. rewrite E. now apply in_map.
  - exfalso. apply Hx. rewrite <- E. now apply in_map.
Qed.

Lemma zones_length s :
  length (zones s)
  = length (deck s) + length (playerHand s) + length (aiHand s)
    + length (discardPile s).
Proof. unfold zones. rewrite !length_app. lia. Qed.

Lemma zonesOk_perm s s' :
  Permutation (zones s) (zones s') -> zonesOk s -> zonesOk s'.
Proof.
  intros P [Hlen Hnd]. split.
  - rewrite <- zones_length, <- (Permutation_length P), zones_length.
    exact Hlen.
  - unfold ids in *. eapply Permutation_NoDup; [|exact Hnd].
    now apply Permutation_map.
Qed.

Lemma zones_hand_NoDup s : zonesOk s -> NoDup (ids (playerHand s)).
Proof.
  intros [_ H]. unfold ids, zones in H. rewrite !map_app in H.
  apply NoDup_app_remove_l in H. now apply NoDup_app_remove_r in H.
Qed.

Lemma zones_aiHand_NoDup s : zonesOk s -> NoDup (ids (aiHand s)).
Proof.
  intros [_ H]. unfold ids, zones in H. rewrite !map_app in H.
  do 2 apply NoDup_app_remove_l in H. now apply NoDup_app_remove_r in H.
Qed.

(** The shapes of a move, as permutations of the four zones. *)
Lemma perm_human_play (D P A X : list Card) (c : Card) :
  NoDup (ids P) -> In c P ->
  Permutation (D ++ P ++ A ++ X) (D ++ without c P ++ A ++ (X ++ [c])).
Proof.
  intros Hnd Hin. apply Permutation_app_head.
  rewrite (without_perm c P Hnd Hin) at 1. simpl.
  rewrite Permutation_cons_append. now rewrite <- !app_assoc.
Qed.

Lemma perm_opponent_play (D P A X : list Card) (c : Card) :
  NoDup (ids A) -> In c A ->
  Permutation (D ++ P ++ A ++ X) (D ++ P ++ without c A ++ (X ++ [c])).
Proof.
  intros Hnd Hin. do 2 apply Permutation_app_head.
  rewrite (without_perm c A Hnd Hin) at 1. simpl.
  rewrite Permutation_cons_append. now rewrite <- !app_assoc.
Qed.

Lemma perm_human_draw (D P A X : list Card) (c : Card) :
  Permutation ((c :: D) ++ P ++ A ++ X) (D ++ (P ++ [c]) ++ A ++ X).
Proof.
  simpl.
  replace (D ++ (P ++ [c]) ++ A ++ X) with ((D ++ P) ++ c :: A ++ X)
    by (now rewrite <- !app_assoc).
  replace (D ++ P ++ A ++ X) with ((D ++ P) ++ A ++ X)
    by (now rewrite <- app_assoc).
  apply Permutation_middle.
Qed.

Lemma perm_opponent_draw (D P A X : list Card) (c : Card) :
  Permutation ((c :: D) ++ P ++ A ++ X) (D ++ P ++ (A ++ [c]) ++ X).
Proof.
  simpl.
  replace (D ++ P ++ (A ++ [c]) ++ X) with ((D ++ P ++ A) ++ c :: X)
    by (now rewrite <- !app_assoc).
  replace (D ++ P ++ A ++ X) with ((D ++ P ++ A) ++ X)
    by (now rewrite <- !app_assoc).
  apply Permutation_middle.
Qed.

Lemma Inv_deal d s0 s : fullDeckOk d -> startGame d s0 = Some s -> Inv s.
Proof.
  intros [Hlen Hnd] H.
  destruct (nth_error d 20) as [c|] eqn:Hc;
    [|rewrite (startGame_none d s0 Hc) in H; discriminate].
  destruct (startGame_some d s0 c Hc) as [_ F].
  destruct (F s H) as (E1 & E2 & E3 & E4 & E5).
  assert (P : Permutation d (zones s)).
  { unfold zones. rewrite E1, E2, E3, E4.
    pose proof (deal_split d c Hc) as Ed.
    apply (Permutation_trans
             (l' := (slice 0 10 d ++ slice 10 20 d ++ [c]) ++ slice_from 21 d)).
    - rewrite <- !app_assoc. rewrite <- Ed. reflexivity.
    - apply Permutation_app_comm. }
  split.
  - split.
    + rewrite <- zones_length, <- (Permutation_length P). exact Hlen.
    + unfold ids in *. eapply Permutation_NoDup; [|exact Hnd].
      now apply Permutation_map.
  - intros p Hp. congruence.
Qed.

Lemma playCard_cases s c :
  playCard c s = s
  \/ (rank c = RA
      /\ playCard c s =
         mkState (deck s) (playerHand s) (aiHand s) (discardPile s)
           (currentSuit s) (turn s) (gameStatus s) true (Some c)
           (message s) (isAiThinking s))
  \/ (turn s = player /\ gameStatus s = playing
      /\ canPlay s c = true /\ rank c <> RA).
Proof.
  destruct (turn_eqb (turn s) player) eqn:Ht;
    [|left; unfold playCard, run, runOn, handlePlayerPlay; now rewrite Ht].
  destruct (status_eqb (gameStatus s) playing) eqn:Hg;
    [|left; unfold playCard, run, runOn, handlePlayerPlay; now rewrite Ht, Hg].
  destruct (canPlay s c) eqn:Hc;
    [|left; unfold playCard, run, runOn, handlePlayerPlay; now rewrite Ht, Hg, Hc].
  apply turn_eqb_eq in Ht. apply status_eqb_eq in Hg.
  right. destruct (rank_eqb (rank c) RA) eqn:Hr.
  - apply rank_eqb_eq in Hr. left. split; [exact Hr|].
    now apply playCard_ace.
  - right. repeat split; auto. intros E. rewrite E in Hr. discriminate.
Qed.

Lemma Inv_playCard s c : Inv s -> In c (playerHand s) -> Inv (playCard c s).
Proof.
  intros [Hz Hp] Hin.
  destruct (playCard_cases s c) as [E|[[Hr E]|(Ht & Hg & Hc & Hr)]].
  - rewrite E. now split.
  - rewrite E. split.
    + exact Hz.
    + intros p H. simpl in H. inversion H; subst p. now split.
  - destruct (playCard_plain s c Ht Hg Hc Hr)
      as (E1 & E2 & E3 & E4 & _ & E5 & _).
    pose proof (zones_hand_NoDup s Hz) as Hnd.
    split.
    + apply (zonesOk_perm s); [|exact Hz].
      unfold zones. rewrite E1, E2, E3, E4. now apply perm_human_play.
    + intros p H. rewrite E5 in H. destruct (Hp p H) as [Hpin Hpr].
      split; [|exact Hpr]. rewrite E1. apply filter_In. split; [exact Hpin|].
      apply negb_true_iff. apply String.eqb_neq. intros E.
      apply (ids_inj _ _ _ Hnd Hpin Hin) in E. congruence.
Qed.

Lemma Inv_chooseSuit s su : Inv s -> Inv (chooseSuit su s).
Proof.
  intros [Hz Hp]. destruct (pendingAceCard s) as [c|] eqn:E.
  - destruct (chooseSuit_pending s su c E)
      as (E1 & E2 & E3 & E4 & _ & E5 & _).
    destruct (Hp c E) as [Hin _].
    split.
    + apply (zonesOk_perm s); [|exact Hz].
      unfold zones. rewrite E1, E2, E3, E4.
      apply perm_human_play; [now apply zones_hand_NoDup | exact Hin].
    + intros p H. congruence.
  - assert (N : chooseSuit su s = s).
    { unfold chooseSuit, run, runOn, handleSuitPick. now rewrite E. }
    rewrite N. now split.
Qed.

Lemma draw_cases s :
  draw s = s \/ (turn s = player /\ gameStatus s = playing).
Proof.
  destruct (turn_eqb (turn s) player) eqn:Ht;
    [|left; unfold draw, run, runOn, handleDraw; now rewrite Ht].
  destruct (status_eqb (gameStatus s) playing) eqn:Hg;
    [|left; unfold draw, run, runOn, handleDraw; now rewrite Ht, Hg].
  apply turn_eqb_eq in Ht. apply status_eqb_eq in Hg. now right.
Qed.

Lemma Inv_draw s : Inv s -> Inv (draw s).
Proof.
  intros [Hz Hp]. destruct (draw_cases s) as [E|[Ht Hg]].
  - rewrite E. now split.
  - destruct (deck s) as [|top rest] eqn:Hd.
    + rewrite (draw_empty s Ht Hg Hd). split.
      * apply (zonesOk_perm s); [reflexivity | exact Hz].
      * exact Hp.
    + rewrite (draw_card s top rest Ht Hg Hd). split.
      * apply (zonesOk_perm s); [|exact Hz].
        unfold zones. simpl deck. simpl playerHand. simpl aiHand.
        simpl discardPile. rewrite Hd. apply perm_human_draw.
      * intros p H. simpl in H. simpl. destruct (Hp p H) as [Hin Hr].
        split; [|exact Hr]. apply in_or_app. now left.
Qed.

Lemma Inv_aiEffect s : Inv s -> Inv (run aiEffect s).
Proof.
  intros H. unfold run, runOn, aiEffect. destruct (aiScheduled s); exact H.
Qed.

Lemma cardToPlay_in s c :
  cardToPlay s = Some c -> In c (aiHand s) /\ canPlay s c = true.
Proof.
  rewrite cardToPlay_preferred.
  unfold preferredCard, firstNonWildPlayable, firstPlayable.
  destruct (find _ (aiHand s)) eqn:F at 1.
  - intros H. inversion H; subst. apply find_some in F.
    destruct F as [F1 F2]. apply andb_true_iff in F2. tauto.
  - intros H. now apply find_some in H.
Qed.

Lemma aiMove_draw s :
  turn s = ai -> gameStatus s = playing -> cardToPlay s = None ->
  playerHand (aiMove s) = playerHand s
  /\ discardPile (aiMove s) = discardPile s
  /\ pendingAceCard (aiMove s) = pendingAceCard s
  /\ turn (aiMove s) = player
  /\ match deck s with
     | [] => deck (aiMove s) = [] /\ aiHand (aiMove s) = aiHand s
     | top :: rest =>
       deck (aiMove s) = rest /\ aiHand (aiMove s) = aiHand s ++ [top]
     end.
Proof.
  intros Ht Hg Hc. unfold aiMove. rewrite (ai_guard s Ht Hg).
  unfold run, runOn, aiTimeout. rewrite Hc.
  destruct (deck s) as [|top rest] eqn:Hd.
  - destruct s; fields; subst; upd; repeat split.
  - destruct (canPlay s top); destruct s; fields; subst; upd; repeat split.
Qed.

Lemma aiMove_cases s :
  aiMove s = s \/ (turn s = ai /\ gameStatus s = playing).
Proof.
  unfold aiMove, aiScheduled.
  destruct (turn_eqb (turn s) ai) eqn:Ht; [|now left].
  destruct (status_eqb (gameStatus s) playing) eqn:Hg; [|now left].
  apply turn_eqb_eq in Ht. apply status_eqb_eq in Hg. now right.
Qed.

Lemma Inv_aiMove s : Inv s -> Inv (aiMove s).
Proof.
  intros [Hz Hp]. destruct (aiMove_cases s) as [E|[Ht Hg]].
  - rewrite E. now split.
  - destruct (cardToPlay s) as [c|] eqn:Hc.
    + destruct (aiMove_play s c Ht Hg Hc)
        as (E1 & E2 & E3 & E4 & _ & E5 & _).
      destruct (cardToPlay_in s c Hc) as [Hin _].
      split.
      * apply (zonesOk_perm s); [|exact Hz].
        unfold zones. rewrite E1, E2, E3, E4.
        apply perm_opponent_play; [now apply zones_aiHand_NoDup | exact Hin].
      * intros p H. rewrite E5 in H. rewrite E2. now apply Hp.
    + destruct (aiMove_draw s Ht Hg Hc) as (E1 & E2 & E3 & _ & E4).
      split.
      * apply (zonesOk_perm s); [|exact Hz]. unfold zones.
        destruct (deck s) as [|top rest]; destruct E4 as [E4 E5];
          rewrite E1, E2, E4, E5; [reflexivity | apply perm_opponent_draw].
      * intros p H. rewrite E3 in H. rewrite E1. now apply Hp.
Qed.

Lemma reach_play1 c s : reachable s -> reachable (playCard c s).
Proof. exact (reach_play c 0 s). Qed.

Lemma reach_suit1 su s : reachable s -> reachable (chooseSuit su s).
Proof. exact (reach_suit su [] s). Qed.

Lemma reach_play2 c s :
  reachable s -> reachable (runOn (handlePlayerPlay c) s (playCard c s)).
Proof. exact (reach_play c 1 s). Qed.

Lemma reach_suit2 su su' s :
  reachable s ->
  reachable (runOn (handleSuitPick su') s (chooseSuit su s)).
Proof. exact (reach_suit su [SuitButton su'] s). Qed.

Lemma reachable_opening : reachable openingState.
Proof.
  apply (reach_deal createDeck initialState); [exact createDeck_ok|].
  vm_compute. reflexivity.
Qed.

Lemma reachable_midGame : reachable midGameState.
Proof.
  assert (E : aiMove (playCard (card R8 hearts) openingState) = midGameState)
    by (vm_compute; reflexivity).
  rewrite <- E. apply reach_ai, reach_play1. exact reachable_opening.
Qed.

Lemma NoDup_distinct (l : list string) : NoDup l -> distinct l = true.
Proof.
  induction 1 as [|x l Hx _ IH]; simpl; [reflexivity|].
  rewrite IH, andb_true_r. apply negb_true_iff.
  destruct (existsb (String.eqb x) l) eqn:E; [|reflexivity].
  apply existsb_exists in E. destruct E as (y & Hy & E).
  apply String.eqb_eq in E. subst y. contradiction.
Qed.

(** C1 fails on the code.  The button of a card that has just been
    played stays mounted while it leaves the screen, with the handler
    of the render before the play.  A second click on it passes the
    guards of [handlePlayerPlay], which read that render, and appends
    the card to the live discard pile once more: from the table dealt
    off the unshuffled deck, on which the four zones hold the 52 cards,
    two clicks on the 8 of hearts lead to a reachable state whose zones
    hold 53 cards, the 8 of hearts twice. *)
Theorem double_click_copies_card :
  let s := openingState in
  let c := card R8 hearts in
  let s1 := playCard c s in
  let s2 := runOn (handlePlayerPlay c) s s1 in
  reachable s /\ reachable s1 /\ reachable s2
  /\ zonesOk s /\ zonesOk s1
  /\ discardPile s2 = discardPile s ++ [c; c]
  /\ length (deck s2) + length (playerHand s2) + length (aiHand s2)
     + length (discardPile s2) = 53
  /\ ~ NoDup (ids (zones s2))
  /\ ~ zonesOk s2.
Proof.
  intros s c s1 s2.
  assert (L : length (deck s2) + length (playerHand s2) + length (aiHand s2)
              + length (discardPile s2) = 53) by (vm_compute; reflexivity).
  split; [exact reachable_opening|].
  split; [exact (reach_play1 c s reachable_opening)|].
  split; [exact (reach_play2 c s reachable_opening)|].
  split; [split; [vm_compute; reflexivity
                 | apply distinct_NoDup; vm_compute; reflexivity]|].
  split; [split; [vm_compute; reflexivity
                 | apply distinct_NoDup; vm_compute; reflexivity]|].
  split; [vm_compute; reflexivity|].
  split; [exact L|].
  split.
  - intros N. apply NoDup_distinct in N. vm_compute in N. discriminate N.
  - intros [N _]. rewrite L in N. discriminate N.
Qed.

(** ** Claim C6: illegal intents *)

(** C6 fails on the code, through the same leftover buttons as C1: the
    guards of a handler read the render its button was part of, not the
    state the click arrives in.  After the 8 of hearts is played from
    the opening table it is the opponent's turn, so a play is illegal;
    yet a second click on the leaving button appends the card to the
    discard pile.  After clubs is chosen for the pending Ace of hearts
    no Ace is pending, so a suit choice is illegal; yet a click on the
    leaving spades button changes the effective suit to spades and
    appends the Ace again. *)
Theorem stale_click_is_not_ignored :
  (let s := openingState in
   let c := card R8 hearts in
   let s1 := playCard c s in
   let s2 := runOn (handlePlayerPlay c) s s1 in
   reachable s1 /\ reachable s2
   /\ turn s1 = ai /\ illegal s1 (PlayCard c)
   /\ discardPile s2 = discardPile s1 ++ [c]
   /\ s2 <> s1)
  /\ (let p := acePendingState in
      let q1 := chooseSuit clubs p in
      let q2 := runOn (handleSuitPick spades) p q1 in
      reachable q1 /\ reachable q2
      /\ pendingAceCard q1 = None /\ illegal q1 (ChooseSuit spades)
      /\ currentSuit q1 = Some clubs /\ currentSuit q2 = Some spades
      /\ discardPile q2 = discardPile q1 ++ [card RA hearts]
      /\ q2 <> q1).
Proof.
  split.
  - intros s c s1 s2.
    assert (T : turn s1 = ai) by (vm_compute; reflexivity).
    assert (D : discardPile s2 = discardPile s1 ++ [c])
      by (vm_compute; reflexivity).
    split; [exact (reach_play1 c s reachable_opening)|].
    split; [exact (reach_play2 c s reachable_opening)|].
    split; [exact T|]. split; [left; rewrite T; discriminate|].
    split; [exact D|].
    intros E. rewrite E in D. apply (f_equal (@length Card)) in D.
    rewrite length_app in D. simpl in D. lia.
  - intros p q1 q2.
    assert (R : reachable p).
    { assert (E : playCard (card RA hearts) openingState = acePendingState)
        by (vm_compute; reflexivity).
      unfold p. rewrite <- E. exact (reach_play1 _ _ reachable_opening). }
    assert (N : pendingAceCard q1 = None) by (vm_compute; reflexivity).
    assert (D : discardPile q2 = discardPile q1 ++ [card RA hearts])
      by (vm_compute; reflexivity).
    split; [exact (reach_suit1 clubs p R)|].
    split; [exact (reach_suit2 clubs spades p R)|].
    split; [exact N|]. split; [exact N|].
    split; [vm_compute; reflexivity|]. split; [vm_compute; reflexivity|].
    split; [exact D|].
    intros E. rewrite E in D. apply (f_equal (@length Card)) in D.
    rewrite length_app in D. simpl in D. lia.
Qed.

(** * Further properties of the state machine *)

(** ** Dealing *)

(** X1: a deal fails exactly when the shuffled deck has no 21st card
    (the read of [initialDiscard.suit] throws); any longer deck deals. *)
Theorem startGame_fails_iff (d : list Card) (s0 : State) :
  startGame d s0 = None <-> length d <= 20.
Proof.
  rewrite <- nth_error_None. split.
  - intros H. destruct (nth_error d 20) as [c|] eqn:Hc; [|reflexivity].
    destruct (startGame_some d s0 c Hc) as [E _]. congruence.
  - apply startGame_none.
Qed.

(** X2: a deal of a deck that has a 21st card overwrites all eleven
    cells, so the table it builds does not depend on the state it
    starts from: a restart keeps nothing of the game before. *)
Theorem restart_forgets (d : list Card) (s0 s1 : State) :
  20 < length d ->
  exists s, startGame d s0 = Some s /\ startGame d s1 = Some s.
Proof.
  intros H. destruct (nth_error d 20) as [c|] eqn:Hc.
  - destruct (startGame_some d s0 c Hc) as [E0 _].
    destruct (startGame_some d s1 c Hc) as [E1 _]. eauto.
  - apply nth_error_None in Hc. lia.
Qed.

Lemma restart_forgets_witness :
  20 < length createDeck
  /\ exists s,
       startGame createDeck initialState = Some s
       /\ startGame createDeck midGameState = Some s.
Proof.
  assert (H : 20 < length createDeck) by (vm_compute; lia).
  split; [exact H|].
  exact (restart_forgets createDeck initialState midGameState H).
Defined.

(** ** Frames of the moves *)

Lemma playCard_plain_flags s c :
  turn s = player -> gameStatus s = playing ->
  canPlay s c = true -> rank c <> RA ->
  showSuitPicker (playCard c s) = showSuitPicker s
  /\ isAiThinking (playCard c s) = isAiThinking s.
Proof.
  intros Ht Hg Hc Hr. unfold playCard, run, runOn, handlePlayerPlay.
  rewrite (play_guard s c Ht Hg Hc).
  destruct (rank_eqb (rank c) RA) eqn:E.
  { apply rank_eqb_eq in E. contradiction. }
  destruct (without c (playerHand s)), (aiHand s) eqn:Ha;
    destruct s; fields; subst; upd; repeat split.
Qed.

Lemma aiMove_flags s :
  showSuitPicker (aiMove s) = showSuitPicker s
  /\ pendingAceCard (aiMove s) = pendingAceCard s
  /\ (aiScheduled s = true -> isAiThinking (aiMove s) = false).
Proof.
  unfold aiMove. destruct (aiScheduled s) eqn:G;
    [|repeat split; discriminate].
  unfold run, runOn, aiTimeout.
  destruct (cardToPlay s) as [c|].
  - destruct (rank_eqb (rank c) RA);
      destruct (playerHand s) eqn:Hp, (without c (aiHand s));
      destruct s; fields; subst; upd; repeat split.
  - destruct (deck s) as [|top rest] eqn:Hd.
    + destruct s; fields; subst; upd; repeat split.
    + destruct (canPlay s top); destruct s; fields; subst; upd; repeat split.
Qed.

Lemma aiEffect_frame s :
  deck (run aiEffect s) = deck s
  /\ playerHand (run aiEffect s) = playerHand s
  /\ aiHand (run aiEffect s) = aiHand s
  /\ discardPile (run aiEffect s) = discardPile s
  /\ currentSuit (run aiEffect s) = currentSuit s
  /\ turn (run aiEffect s) = turn s
  /\ gameStatus (run aiEffect s) = gameStatus s
  /\ showSuitPicker (run aiEffect s) = showSuitPicker s
  /\ pendingAceCard (run aiEffect s) = pendingAceCard s
  /\ message (run aiEffect s) = message s.
Proof.
  unfold run, runOn, aiEffect. destruct (aiScheduled s); destruct s; upd;
    repeat split.
Qed.

Lemma topDiscard_last s l c : discardPile s = l ++ [c] -> topDiscard s = Some c.
Proof. intros E. unfold topDiscard. rewrite E. apply last_index. Qed.

Lemma canPlay_against s top su c :
  topDiscard s = Some top -> currentSuit s = Some su ->
  canPlay s c = true <-> rank c = RA \/ suit c = su \/ rank c = rank top.
Proof.
  intros Ht Hs. rewrite (canPlay_true_iff s c top Ht), Hs.
  split; intros [H|[H|H]]; auto; right; left; congruence.
Qed.

(** ** Handlers on a stale snapshot *)

Lemma playOn_plain p s c :
  turn p = player -> gameStatus p = playing ->
  canPlay p c = true -> rank c <> RA ->
  let newHand := without c (playerHand p) in
  let s' := runOn (handlePlayerPlay c) p s in
  playerHand s' = newHand
  /\ aiHand s' = aiHand s
  /\ deck s' = deck s
  /\ discardPile s' = discardPile s ++ [c]
  /\ currentSuit s' = Some (suit c)
  /\ pendingAceCard s' = pendingAceCard s
  /\ showSuitPicker s' = showSuitPicker s
  /\ gameStatus s' = terminal newHand (aiHand p) (gameStatus s)
  /\ turn s' = (if continues newHand (aiHand p) then ai else turn s).
Proof.
  intros Ht Hg Hc Hr newHand s'. subst newHand s'.
  unfold runOn, handlePlayerPlay.
  rewrite (play_guard p c Ht Hg Hc).
  destruct (rank_eqb (rank c) RA) eqn:E.
  { apply rank_eqb_eq in E. contradiction. }
  destruct (without c (playerHand p)), (aiHand p) eqn:Ha;
    destruct p, s; fields; subst; upd; cbn [terminal continues];
    repeat split.
Qed.

Lemma playOn_ace p s c :
  turn p = player -> gameStatus p = playing ->
  canPlay p c = true -> rank c = RA ->
  runOn (handlePlayerPlay c) p s =
  mkState (deck s) (playerHand s) (aiHand s) (discardPile s) (currentSuit s)
    (turn s) (gameStatus s) true (Some c) (message s) (isAiThinking s).
Proof.
  intros Ht Hg Hc Hr. unfold runOn, handlePlayerPlay.
  rewrite (play_guard p c Ht Hg Hc), Hr.
  destruct s; upd; reflexivity.
Qed.

Lemma playOn_cases p s c :
  runOn (handlePlayerPlay c) p s = s
  \/ (turn p = player /\ gameStatus p = playing /\ canPlay p c = true
      /\ rank c = RA)
  \/ (turn p = player /\ gameStatus p = playing /\ canPlay p c = true
      /\ rank c <> RA).
Proof.
  destruct (turn_eqb (turn p) player) eqn:Ht;
    [|left; unfold runOn, handlePlayerPlay; now rewrite Ht].
  destruct (status_eqb (gameStatus p) playing) eqn:Hg;
    [|left; unfold runOn, handlePlayerPlay; now rewrite Ht, Hg].
  destruct (canPlay p c) eqn:Hc;
    [|left; unfold runOn, handlePlayerPlay; now rewrite Ht, Hg, Hc].
  apply turn_eqb_eq in Ht. apply status_eqb_eq in Hg.
  right. destruct (rank_eqb (rank c) RA) eqn:Hr.
  - apply rank_eqb_eq in Hr. left. auto.
  - right. repeat split; auto. intros E. rewrite E in Hr. discriminate.
Qed.

Lemma pickOn_pending p s su a :
  pendingAceCard p = Some a ->
  let newHand := without a (playerHand p) in
  let s' := runOn (handleSuitPick su) p s in
  playerHand s' = newHand
  /\ aiHand s' = aiHand s
  /\ deck s' = deck s
  /\ discardPile s' = discardPile s ++ [a]
  /\ currentSuit s' = Some su
  /\ pendingAceCard s' = None
  /\ showSuitPicker s' = false
  /\ gameStatus s' = terminal newHand (aiHand p) (gameStatus s)
  /\ turn s' = (if continues newHand (aiHand p) then ai else turn s).
Proof.
  intros Hp newHand s'. subst newHand s'.
  unfold runOn, handleSuitPick. rewrite Hp.
  destruct (without a (playerHand p)), (aiHand p) eqn:Ha;
    destruct p, s; fields; subst; upd; cbn [terminal continues];
    repeat split.
Qed.

Lemma pickOn_none p s su :
  pendingAceCard p = None -> runOn (handleSuitPick su) p s = s.
Proof. intros Hp. unfold runOn, handleSuitPick. now rewrite Hp. Qed.

Lemma terminal_idem pHand aHand x :
  terminal pHand aHand (terminal pHand aHand x) = terminal pHand aHand x.
Proof. now destruct pHand, aHand. Qed.

(** ** The human's plays *)

(** X3: a legal human play of a non-Ace card that is in the hand takes
    exactly that card out of the hand (the cards around it keep their
    order), puts it on top of the discard pile, makes its suit the
    effective suit, and touches neither the draw pile, the opponent
    hand nor the pending-Ace state. *)
Theorem plain_play_spec (s : State) (c : Card) :
  turn s = player -> gameStatus s = playing ->
  canPlay s c = true -> rank c <> RA ->
  In c (playerHand s) -> NoDup (ids (playerHand s)) ->
  (exists l1 l2,
     playerHand s = l1 ++ c :: l2 /\ playerHand (playCard c s) = l1 ++ l2)
  /\ length (playerHand (playCard c s)) + 1 = length (playerHand s)
  /\ discardPile (playCard c s) = discardPile s ++ [c]
  /\ topDiscard (playCard c s) = Some c
  /\ currentSuit (playCard c s) = Some (suit c)
  /\ deck (playCard c s) = deck s
  /\ aiHand (playCard c s) = aiHand s
  /\ pendingAceCard (playCard c s) = pendingAceCard s
  /\ showSuitPicker (playCard c s) = showSuitPicker s.
Proof.
  intros Ht Hg Hc Hr Hin Hnd.
  destruct (playCard_plain s c Ht Hg Hc Hr)
    as (E1 & E2 & E3 & E4 & E5 & E6 & _).
  destruct (playCard_plain_flags s c Ht Hg Hc Hr) as [E7 _].
  destruct (without_split c (playerHand s) Hnd Hin) as (l1 & l2 & F1 & F2).
  split; [|split].
  - exists l1, l2. split; [exact F1|]. now rewrite E1.
  - rewrite E1, F2, F1, !length_app. simpl. lia.
  - repeat split; auto. now apply (topDiscard_last _ (discardPile s)).
Qed.

Lemma plain_play_spec_witness :
  let s := openingState in
  let c := card R8 hearts in
  (turn s = player /\ gameStatus s = playing /\ canPlay s c = true
   /\ rank c <> RA /\ In c (playerHand s) /\ NoDup (ids (playerHand s)))
  /\ (exists l1 l2,
     playerHand s = l1 ++ c :: l2 /\ playerHand (playCard c s) = l1 ++ l2)
  /\ length (playerHand (playCard c s)) + 1 = length (playerHand s)
  /\ discardPile (playCard c s) = discardPile s ++ [c]
  /\ topDiscard (playCard c s) = Some c
  /\ currentSuit (playCard c s) = Some (suit c)
  /\ deck (playCard c s) = deck s
  /\ aiHand (playCard c s) = aiHand s
  /\ pendingAceCard (playCard c s) = pendingAceCard s
  /\ showSuitPicker (playCard c s) = showSuitPicker s.
Proof.
  intros s c.
  assert (Hr : rank c <> RA) by discriminate.
  assert (Hin : In c (playerHand s)) by (do 7 right; left; reflexivity).
  assert (Hnd : NoDup (ids (playerHand s)))
    by (apply distinct_NoDup; vm_compute; reflexivity).
  split; [repeat split; assumption|].
  exact (plain_play_spec openingState (card R8 hearts)
           eq_refl eq_refl eq_refl Hr Hin Hnd).
Defined.

(** X4: after a legal human play of a non-Ace card, legality is judged
    against that card: a card is playable in the new state exactly when
    it is an Ace, has the suit of the card just played, or has its
    rank. *)
Theorem legality_after_plain_play (s : State) (c c' : Card) :
  turn s = player -> gameStatus s = playing ->
  canPlay s c = true -> rank c <> RA ->
  canPlay (playCard c s) c' = true <->
  rank c' = RA \/ suit c' = suit c \/ rank c' = rank c.
Proof.
  intros Ht Hg Hc Hr.
  destruct (playCard_plain s c Ht Hg Hc Hr) as (_ & _ & _ & E4 & E5 & _).
  apply canPlay_against; [|exact E5].
  now apply (topDiscard_last _ (discardPile s)).
Qed.

Lemma legality_after_plain_play_witness :
  let s := openingState in
  let c := card R8 hearts in
  let c' := card R8 clubs in
  (turn s = player /\ gameStatus s = playing /\ canPlay s c = true
   /\ rank c <> RA)
  /\ (canPlay (playCard c s) c' = true <->
      rank c' = RA \/ suit c' = suit c \/ rank c' = rank c).
Proof.
  intros s c c'.
  assert (Hr : rank c <> RA) by discriminate.
  split; [repeat split; assumption|].
  exact (legality_after_plain_play openingState (card R8 hearts)
           (card R8 clubs) eq_refl eq_refl eq_refl Hr).
Defined.

(** X5: [handleSuitPick] is guarded by the pending card alone: with an
    Ace pending, whoever's turn it is and whatever the status, the suit
    choice puts the Ace on top of the discard pile and makes the chosen
    suit the effective suit, so that afterwards exactly the Aces and the
    cards of the chosen suit are playable. *)
Theorem legality_after_suit_choice (s : State) (su : Suit) (c c' : Card) :
  pendingAceCard s = Some c -> rank c = RA ->
  topDiscard (chooseSuit su s) = Some c
  /\ currentSuit (chooseSuit su s) = Some su
  /\ (canPlay (chooseSuit su s) c' = true <-> rank c' = RA \/ suit c' = su).
Proof.
  intros Hp Hr.
  destruct (chooseSuit_pending s su c Hp) as (_ & _ & _ & E4 & E5 & _).
  assert (T : topDiscard (chooseSuit su s) = Some c)
    by (now apply (topDiscard_last _ (discardPile s))).
  repeat split; auto.
  - intros H. apply (canPlay_against _ c su c' T E5) in H.
    destruct H as [H|[H|H]]; auto. left. congruence.
  - intros H. apply (canPlay_against _ c su c' T E5). tauto.
Qed.

Lemma legality_after_suit_choice_witness :
  let s := pendingAceState in
  let c := card RA spades in
  let c' := card R2 diamonds in
  (pendingAceCard s = Some c /\ rank c = RA)
  /\ topDiscard (chooseSuit diamonds s) = Some c
  /\ currentSuit (chooseSuit diamonds s) = Some diamonds
  /\ (canPlay (chooseSuit diamonds s) c' = true <->
      rank c' = RA \/ suit c' = diamonds).
Proof.
  intros s c c'. split; [split; reflexivity|].
  exact (legality_after_suit_choice pendingAceState diamonds
           (card RA spades) (card R2 diamonds) eq_refl eq_refl).
Defined.

(** ** The opponent's move *)

Lemma cardToPlay_none s :
  cardToPlay s = None <-> filter (canPlay s) (aiHand s) = [].
Proof.
  unfold cardToPlay. destruct (filter (canPlay s) (aiHand s));
    split; intros; congruence.
Qed.

Lemma aiMove_draw_rest s :
  turn s = ai -> gameStatus s = playing -> cardToPlay s = None ->
  currentSuit (aiMove s) = currentSuit s
  /\ gameStatus (aiMove s) = playing.
Proof.
  intros Ht Hg Hc. unfold aiMove. rewrite (ai_guard s Ht Hg).
  unfold run, runOn, aiTimeout. rewrite Hc.
  destruct (deck s) as [|top rest] eqn:Hd.
  - destruct s; fields; subst; upd; repeat split.
  - destruct (canPlay s top); destruct s; fields; subst; upd; repeat split.
Qed.

(** X6: an opponent with no playable card takes the first card of the
    draw pile into its hand and hands the turn over without playing,
    even when the card it drew is playable; with an empty draw pile it
    just hands the turn over.  The human hand, the discard pile, the
    effective suit and the status stay as they were. *)
Theorem opponent_draw_spec (s : State) :
  turn s = ai -> gameStatus s = playing ->
  filter (canPlay s) (aiHand s) = [] ->
  turn (aiMove s) = player
  /\ gameStatus (aiMove s) = playing
  /\ playerHand (aiMove s) = playerHand s
  /\ discardPile (aiMove s) = discardPile s
  /\ currentSuit (aiMove s) = currentSuit s
  /\ match deck s with
     | [] => deck (aiMove s) = [] /\ aiHand (aiMove s) = aiHand s
     | top :: rest =>
       deck (aiMove s) = rest /\ aiHand (aiMove s) = aiHand s ++ [top]
     end.
Proof.
  intros Ht Hg Hn. apply cardToPlay_none in Hn.
  destruct (aiMove_draw s Ht Hg Hn) as (E1 & E2 & _ & E3 & E4).
  destruct (aiMove_draw_rest s Ht Hg Hn) as [E5 E6].
  repeat split; assumption.
Qed.

Lemma opponent_draw_spec_witness :
  let s := opponentDrawState in
  (turn s = ai /\ gameStatus s = playing
   /\ filter (canPlay s) (aiHand s) = [])
  /\ canPlay s (card R9 hearts) = true
  /\ turn (aiMove s) = player
  /\ gameStatus (aiMove s) = playing
  /\ playerHand (aiMove s) = playerHand s
  /\ discardPile (aiMove s) = discardPile s
  /\ currentSuit (aiMove s) = currentSuit s
  /\ match deck s with
     | [] => deck (aiMove s) = [] /\ aiHand (aiMove s) = aiHand s
     | top :: rest =>
       deck (aiMove s) = rest /\ aiHand (aiMove s) = aiHand s ++ [top]
     end.
Proof.
  intros s. split; [repeat split|]. split; [reflexivity|].
  exact (opponent_draw_spec opponentDrawState eq_refl eq_refl eq_refl).
Defined.

Lemma terminal_playing pHand aHand :
  terminal pHand aHand playing = playing <-> continues pHand aHand = true.
Proof. destruct pHand, aHand; simpl; split; congruence. Qed.

(** X7: the opponent never keeps the turn of a game that goes on: after
    its move the thinking flag is cleared, and the turn is the human's
    unless the move ended the game, in which case the turn stays where
    it was. *)
Theorem opponent_hands_over (s : State) :
  turn s = ai -> gameStatus s = playing ->
  isAiThinking (aiMove s) = false
  /\ (gameStatus (aiMove s) = playing -> turn (aiMove s) = player)
  /\ (gameStatus (aiMove s) <> playing ->
      turn (aiMove s) = ai
      /\ (playerHand (aiMove s) = [] \/ aiHand (aiMove s) = [])).
Proof.
  intros Ht Hg.
  destruct (aiMove_flags s) as (_ & _ & F). split; [apply F, ai_guard; auto|].
  destruct (cardToPlay s) as [c|] eqn:Hc.
  - destruct (aiMove_play s c Ht Hg Hc)
      as (E1 & E2 & _ & _ & _ & _ & E3 & E4).
    rewrite E1, E2, E3, E4.
    destruct (playerHand s), (without c (aiHand s)); simpl;
      split; intros; try congruence; auto.
  - destruct (aiMove_draw s Ht Hg Hc) as (_ & _ & _ & E & _).
    destruct (aiMove_draw_rest s Ht Hg Hc) as [_ E'].
    split; intros; congruence.
Qed.

Lemma opponent_hands_over_witness :
  let s := opponentTurnState in
  (turn s = ai /\ gameStatus s = playing)
  /\ isAiThinking (aiMove s) = false
  /\ (gameStatus (aiMove s) = playing -> turn (aiMove s) = player)
  /\ (gameStatus (aiMove s) <> playing ->
      turn (aiMove s) = ai
      /\ (playerHand (aiMove s) = [] \/ aiHand (aiMove s) = [])).
Proof.
  intros s. split; [split; reflexivity|].
  exact (opponent_hands_over opponentTurnState eq_refl eq_refl).
Defined.

(** X8: the card the opponent plays leaves its hand alone (the other
    cards keep their order) and tops the discard pile; a non-Ace makes
    its own suit the effective suit, so that the human must then answer
    with an Ace, that suit or that rank.  The draw pile, the human hand
    and a pending Ace are not touched. *)
Theorem opponent_play_spec (s : State) (c c' : Card) :
  turn s = ai -> gameStatus s = playing ->
  cardToPlay s = Some c -> NoDup (ids (aiHand s)) ->
  (exists l1 l2, aiHand s = l1 ++ c :: l2 /\ aiHand (aiMove s) = l1 ++ l2)
  /\ discardPile (aiMove s) = discardPile s ++ [c]
  /\ topDiscard (aiMove s) = Some c
  /\ deck (aiMove s) = deck s
  /\ playerHand (aiMove s) = playerHand s
  /\ pendingAceCard (aiMove s) = pendingAceCard s
  /\ (rank c <> RA ->
      currentSuit (aiMove s) = Some (suit c)
      /\ (canPlay (aiMove s) c' = true <->
          rank c' = RA \/ suit c' = suit c \/ rank c' = rank c)).
Proof.
  intros Ht Hg Hc Hnd.
  destruct (aiMove_play s c Ht Hg Hc)
    as (E1 & E2 & E3 & E4 & E5 & E6 & _).
  destruct (cardToPlay_in s c Hc) as [Hin _].
  destruct (without_split c (aiHand s) Hnd Hin) as (l1 & l2 & F1 & F2).
  assert (T : topDiscard (aiMove s) = Some c)
    by (now apply (topDiscard_last _ (discardPile s))).
  split; [exists l1, l2; split; [exact F1 | now rewrite E1]|].
  repeat split; auto.
  - destruct (rank_eqb (rank c) RA) eqn:E; [|exact E5].
    apply rank_eqb_eq in E. contradiction.
  - intros P. apply (canPlay_against _ c (suit c) c' T); [|exact P].
    destruct (rank_eqb (rank c) RA) eqn:E; [|exact E5].
    apply rank_eqb_eq in E. contradiction.
  - intros P. apply (canPlay_against _ c (suit c) c' T); [|exact P].
    destruct (rank_eqb (rank c) RA) eqn:E; [|exact E5].
    apply rank_eqb_eq in E. contradiction.
Qed.

Lemma opponent_play_spec_witness :
  let s := opponentTurnState in
  let c := card R7 spades in
  let c' := card R2 spades in
  (turn s = ai /\ gameStatus s = playing /\ cardToPlay s = Some c
   /\ NoDup (ids (aiHand s)))
  /\ (exists l1 l2, aiHand s = l1 ++ c :: l2 /\ aiHand (aiMove s) = l1 ++ l2)
  /\ discardPile (aiMove s) = discardPile s ++ [c]
  /\ topDiscard (aiMove s) = Some c
  /\ deck (aiMove s) = deck s
  /\ playerHand (aiMove s) = playerHand s
  /\ pendingAceCard (aiMove s) = pendingAceCard s
  /\ (rank c <> RA ->
      currentSuit (aiMove s) = Some (suit c)
      /\ (canPlay (aiMove s) c' = true <->
          rank c' = RA \/ suit c' = suit c \/ rank c' = rank c)).
Proof.
  intros s c c'.
  assert (Hnd : NoDup (ids (aiHand s)))
    by (apply distinct_NoDup; vm_compute; reflexivity).
  split; [repeat split; assumption|].
  exact (opponent_play_spec opponentTurnState (card R7 spades)
           (card R2 spades) eq_refl eq_refl eq_refl Hnd).
Defined.

(** ** Invariants of the reachable states *)

Lemma dealt_state d s0 s :
  fullDeckOk d -> startGame d s0 = Some s ->
  exists c,
    nth_error d 20 = Some c
    /\ s = mkState (slice_from 21 d) (slice 0 10 d) (slice 10 20 d) [c]
             (Some (suit c)) player playing false None
             "Your turn! Match the suit or rank." false.
Proof.
  intros _ H. destruct (nth_error d 20) as [c|] eqn:Hc;
    [|rewrite (startGame_none d s0 Hc) in H; discriminate].
  exists c. split; [reflexivity|].
  destruct (startGame_some d s0 c Hc) as [E _]. congruence.
Qed.

Lemma dealt_hands d :
  length d = 52 ->
  exists p ps a rest, slice 0 10 d = p :: ps /\ slice 10 20 d = a :: rest.
Proof.
  intros H. unfold slice.
  change (10 - 0) with 10. change (20 - 10) with 10.
  change (skipn 0 d) with d.
  do 11 (destruct d as [|? d]; [simpl in H; lia|]).
  simpl. do 4 eexists. split; reflexivity.
Qed.

Lemma statusAgrees_playing s :
  statusAgrees s -> gameStatus s = playing ->
  exists p ps a rest, playerHand s = p :: ps /\ aiHand s = a :: rest.
Proof.
  unfold statusAgrees. intros H G. rewrite G in H.
  destruct (playerHand s) as [|p ps], (aiHand s) as [|a rest];
    simpl in H; try discriminate. do 4 eexists. split; reflexivity.
Qed.

Lemma suitAgrees_intro s top su :
  topDiscard s = Some top -> currentSuit s = Some su ->
  (rank top <> RA -> su = suit top) -> suitAgrees s.
Proof. intros. exists top, su. auto. Qed.

Lemma suitAgrees_same s s' :
  discardPile s' = discardPile s -> currentSuit s' = currentSuit s ->
  suitAgrees s -> suitAgrees s'.
Proof.
  intros Ed Ec (top & su & T & C & R). exists top, su.
  unfold topDiscard in *. rewrite Ed, Ec. auto.
Qed.

Lemma pickerAgrees_same s s' :
  showSuitPicker s' = showSuitPicker s ->
  pendingAceCard s' = pendingAceCard s ->
  pickerAgrees s -> pickerAgrees s'.
Proof. unfold pickerAgrees. intros -> ->. auto. Qed.

Lemma Good_view s s' : sameView s s' -> Good s -> Good s'.
Proof.
  intros (E1 & E2 & E3 & E4 & E5 & E6 & E7) (J & (top & su & T & C & R) & K & A).
  unfold Good, statusAgrees, suitAgrees, pickerAgrees, aceOk in *.
  rewrite E1, E2, E3, E4, E5, E6, E7. repeat split; auto.
  exists top, su. auto.
Qed.

Lemma Good_deal d s0 s : fullDeckOk d -> startGame d s0 = Some s -> Good s.
Proof.
  intros Hd Hs. destruct (dealt_state d s0 s Hd Hs) as (c & _ & ->).
  destruct Hd as [Hlen _].
  destruct (dealt_hands d Hlen) as (p & ps & a & rest & P & A).
  repeat split.
  - unfold statusAgrees. fields. now rewrite P, A.
  - now apply (suitAgrees_intro _ c (suit c)).
  - intros x H. discriminate H.
Qed.

Lemma Good_playCard s c : Good s -> Good (playCard c s).
Proof.
  intros (J & S & K & A).
  destruct (playCard_cases s c) as [E|[[Hr E]|(Ht & Hg & Hc & Hk)]].
  - rewrite E. repeat split; auto.
  - rewrite E. repeat split.
    + exact J.
    + now apply (suitAgrees_same s).
    + intros x H. simpl in H. congruence.
  - destruct (playCard_plain s c Ht Hg Hc Hk)
      as (E1 & E2 & _ & E4 & E5 & E6 & E7 & _).
    destruct (playCard_plain_flags s c Ht Hg Hc Hk) as [F _].
    repeat split.
    + unfold statusAgrees. now rewrite E1, E2, E7.
    + apply (suitAgrees_intro _ c (suit c)); auto.
      now apply (topDiscard_last _ (discardPile s)).
    + now apply (pickerAgrees_same s).
    + intros x H. rewrite E6 in H. now apply A.
Qed.

Lemma play_burst_view p c n :
  sameView (playCard c p)
           (Nat.iter n (runOn (handlePlayerPlay c) p) (playCard c p)).
Proof.
  induction n as [|n IH]; [unfold sameView; repeat split|].
  simpl. set (sn := Nat.iter n _ (playCard c p)) in *.
  destruct IH as (I1 & I2 & I3 & I4 & I5 & I6 & I7).
  destruct (playOn_cases p sn c) as [E|[(Ht & Hg & Hc & Hr)|(Ht & Hg & Hc & Hr)]].
  - rewrite E. unfold sameView. auto 10.
  - rewrite (playOn_ace p sn c Ht Hg Hc Hr).
    rewrite (playCard_ace p c Ht Hg Hc Hr) in I1, I2, I3, I4, I5 |- *.
    unfold sameView, topDiscard in *. fields. repeat split; assumption.
  - destruct (playOn_plain p sn c Ht Hg Hc Hr)
      as (E1 & E2 & _ & E4 & E5 & E6 & E7 & E8 & _).
    destruct (playCard_plain p c Ht Hg Hc Hr)
      as (F1 & F2 & _ & F4 & F5 & F6 & F8 & _).
    destruct (playCard_plain_flags p c Ht Hg Hc Hr) as [F7 _].
    unfold sameView. repeat split.
    + now rewrite E1, F1.
    + now rewrite E2.
    + rewrite E8, I3, F8. apply terminal_idem.
    + rewrite (topDiscard_last _ _ _ E4). symmetry.
      exact (topDiscard_last _ _ _ F4).
    + now rewrite E5, F5.
    + now rewrite E7.
    + now rewrite E6.
Qed.

Lemma Good_chooseSuit s su : Good s -> Good (chooseSuit su s).
Proof.
  intros (J & S & K & A). destruct (pendingAceCard s) as [c|] eqn:E.
  - destruct (chooseSuit_pending s su c E)
      as (E1 & E2 & _ & E4 & E5 & E6 & E7 & E8 & _).
    repeat split.
    + unfold statusAgrees in *. rewrite E1, E2, E8.
      destruct (without c (playerHand s)) eqn:W, (aiHand s) eqn:Ha;
        simpl; try reflexivity.
      rewrite J. destruct (playerHand s); [discriminate W|reflexivity].
    + apply (suitAgrees_intro _ c su); auto.
      * now apply (topDiscard_last _ (discardPile s)).
      * intros N. elim N. now apply A.
    + unfold pickerAgrees. now rewrite E6, E7.
    + intros x H. congruence.
  - assert (N : chooseSuit su s = s).
    { unfold chooseSuit, run, runOn, handleSuitPick. now rewrite E. }
    rewrite N. repeat split; auto.
Qed.

Lemma afterPick_start p su a :
  Good p -> pendingAceCard p = Some a -> afterPick p a (chooseSuit su p).
Proof.
  intros G E. destruct (Good_chooseSuit p su G) as (J & _).
  destruct (chooseSuit_pending p su a E)
    as (E1 & E2 & _ & E4 & E5 & E6 & E7 & _).
  unfold afterPick. repeat split; eauto.
  now apply (topDiscard_last _ (discardPile p)).
Qed.

Lemma afterPick_step p a s b :
  pendingAceCard p = Some a -> rank a = RA ->
  afterPick p a s -> afterPick p a (staleAfterPick p s b).
Proof.
  intros E Hr (I1 & I2 & J & T & [su0 C] & K).
  destruct b as [|su]; simpl.
  - rewrite E.
    destruct (playOn_cases p s a) as [N|[(Ht & Hg & Hc & _)|(_ & _ & _ & Hk)]];
      [ | |contradiction].
    + rewrite N. unfold afterPick. eauto 10.
    + rewrite (playOn_ace p s a Ht Hg Hc Hr).
      unfold afterPick, statusAgrees, topDiscard in *. fields.
      repeat split; eauto.
  - destruct (pickOn_pending p s su a E)
      as (E1 & E2 & _ & E4 & E5 & E6 & E7 & E8 & _).
    unfold afterPick. repeat split; eauto.
    + now rewrite E2.
    + unfold statusAgrees in *. rewrite E1, E2, E8, I2.
      rewrite J, I1, I2. apply terminal_idem.
    + now apply (topDiscard_last _ (discardPile s)).
Qed.

Lemma afterPick_burst p a bs : forall s,
  pendingAceCard p = Some a -> rank a = RA ->
  afterPick p a s -> afterPick p a (fold_left (staleAfterPick p) bs s).
Proof.
  induction bs as [|b bs IH]; intros s E Hr I; simpl; [exact I|].
  apply IH; auto. now apply afterPick_step.
Qed.

Lemma afterPick_Good p a s :
  rank a = RA -> afterPick p a s -> Good s.
Proof.
  intros Hr (_ & _ & J & T & [su C] & K). repeat split.
  - exact J.
  - apply (suitAgrees_intro _ a su T C). intros N. contradiction.
  - unfold pickerAgrees. destruct K as [[K1 K2]|[K1 K2]]; now rewrite K1, K2.
  - intros x H. destruct K as [[_ K2]|[_ K2]]; congruence.
Qed.

Lemma idle_pick_burst p bs :
  pendingAceCard p = None -> fold_left (staleAfterPick p) bs p = p.
Proof.
  intros E. induction bs as [|b bs IH]; simpl; [reflexivity|].
  assert (N : staleAfterPick p p b = p).
  { destruct b as [|su]; simpl; [now rewrite E | now apply pickOn_none]. }
  now rewrite N.
Qed.

Lemma Good_draw s : Good s -> Good (draw s).
Proof.
  intros (J & S & K & A).
  destruct (draw_cases s) as [E|[Ht Hg]]; [rewrite E; repeat split; auto|].
  destruct (statusAgrees_playing s J Hg) as (p & ps & a & rest & P & Ha).
  destruct (deck s) as [|top more] eqn:Hd.
  - rewrite (draw_empty s Ht Hg Hd). apply (Good_view s).
    + unfold sameView, topDiscard. destruct s; upd. repeat split.
    + repeat split; auto.
  - rewrite (draw_card s top more Ht Hg Hd). repeat split.
    + unfold statusAgrees. fields. rewrite P, Ha. reflexivity.
    + now apply (suitAgrees_same s).
    + now apply (pickerAgrees_same s).
    + intros x H. fields. now apply A.
Qed.

Lemma Good_aiEffect s : Good s -> Good (run aiEffect s).
Proof.
  destruct (aiEffect_frame s)
    as (_ & E1 & E2 & E3 & E4 & _ & E5 & E6 & E7 & _).
  apply Good_view. unfold sameView, topDiscard. rewrite E3. auto 10.
Qed.

Lemma Good_aiMove s : Good s -> Good (aiMove s).
Proof.
  intros (J & S & K & A).
  destruct (aiMove_flags s) as (F1 & F2 & _).
  destruct (aiMove_cases s) as [E|[Ht Hg]]; [rewrite E; repeat split; auto|].
  assert (K' : pickerAgrees (aiMove s)) by (now apply (pickerAgrees_same s)).
  assert (A' : aceOk (aiMove s)) by (intros x H; rewrite F2 in H; now apply A).
  destruct (cardToPlay s) as [c|] eqn:Hc.
  - destruct (aiMove_play s c Ht Hg Hc)
      as (E1 & E2 & _ & E4 & E5 & _ & E7 & _).
    repeat split; auto.
    + unfold statusAgrees. now rewrite E1, E2, E7.
    + apply (suitAgrees_intro _ c _ (topDiscard_last _ _ _ E4) E5).
      intros N. destruct (rank_eqb (rank c) RA) eqn:E; [|reflexivity].
      apply rank_eqb_eq in E. contradiction.
  - destruct (statusAgrees_playing s J Hg) as (p & ps & a & rest & P & Ha).
    destruct (aiMove_draw s Ht Hg Hc) as (E1 & E2 & _ & _ & E4).
    destruct (aiMove_draw_rest s Ht Hg Hc) as [E5 E6].
    repeat split; auto.
    + unfold statusAgrees. rewrite E1, E6, P.
      destruct (deck s); destruct E4 as [_ E4]; rewrite E4, Ha; reflexivity.
    + now apply (suitAgrees_same s).
Qed.

Lemma reachable_Good s : reachable s -> Good s.
Proof.
  induction 1 as [d s0 s Hd Hs|c n s Hr IH|su bs s Hr IH|s Hr IH|s Hr IH|s Hr IH].
  - exact (Good_deal d s0 s Hd Hs).
  - apply (Good_view (playCard c s)); [apply play_burst_view|].
    now apply Good_playCard.
  - destruct (pendingAceCard s) as [a|] eqn:E.
    + assert (Ha : rank a = RA) by (destruct IH as (_ & _ & _ & A); now apply A).
      apply (afterPick_Good s a); [exact Ha|].
      apply afterPick_burst; auto. now apply afterPick_start.
    + assert (N : chooseSuit su s = s).
      { unfold chooseSuit, run, runOn, handleSuitPick. now rewrite E. }
      rewrite N, (idle_pick_burst s bs E). exact IH.
  - now apply Good_draw.
  - now apply Good_aiEffect.
  - now apply Good_aiMove.
Qed.

Lemma reachable_has_top s :
  reachable s -> exists top, topDiscard s = Some top.
Proof.
  intros H. destruct (reachable_Good s H) as (_ & (top & _ & T & _) & _).
  now exists top.
Qed.



(** X10: in every reachable state the discard pile has a top card and
    the effective suit is set; the effective suit is the suit of the
    top discard unless that card is an Ace. *)
Theorem effective_suit_follows_top (s : State) :
  reachable s ->
  exists top su,
    topDiscard s = Some top /\ currentSuit s = Some su
    /\ (rank top <> RA -> su = suit top).
Proof. intros H. destruct (reachable_Good s H) as (_ & S & _). exact S. Qed.

Lemma effective_suit_follows_top_witness :
  reachable midGameState
  /\ exists top su,
    topDiscard midGameState = Some top /\ currentSuit midGameState = Some su
    /\ (rank top <> RA -> su = suit top).
Proof.
  split; [exact reachable_midGame|].
  exact (effective_suit_follows_top midGameState reachable_midGame).
Defined.

(** X11: in every reachable state the suit picker is shown exactly
    while a card is pending, and a pending card is an Ace.  (It need
    not be in the hand any more: a click on the leaving button of an
    Ace just played makes it pending again.) *)
Theorem picker_follows_pending (s : State) :
  reachable s ->
  (showSuitPicker s = true <-> pendingAceCard s <> None)
  /\ (forall c, pendingAceCard s = Some c -> rank c = RA).
Proof.
  intros H. destruct (reachable_Good s H) as (_ & _ & P & A). split.
  - unfold pickerAgrees in P.
    rewrite P. destruct (pendingAceCard s); split; congruence.
  - exact A.
Qed.

Lemma reachable_acePending : reachable acePendingState.
Proof.
  assert (E : playCard (card RA hearts) openingState = acePendingState)
    by (vm_compute; reflexivity).
  rewrite <- E. exact (reach_play1 _ _ reachable_opening).
Qed.

Lemma picker_follows_pending_witness :
  reachable acePendingState
  /\ (showSuitPicker acePendingState = true <->
      pendingAceCard acePendingState <> None)
  /\ (forall c, pendingAceCard acePendingState = Some c -> rank c = RA).
Proof.
  split; [exact reachable_acePending|].
  exact (picker_follows_pending acePendingState reachable_acePending).
Defined.

(** ** Traces of moves *)

Lemma card_eqb_eq a b : card_eqb a b = true -> a = b.
Proof.
  unfold card_eqb. intros H.
  apply andb_true_iff in H. destruct H as [H Hr].
  apply andb_true_iff in H. destruct H as [Hi Hs].
  apply String.eqb_eq in Hi. apply suit_eqb_eq in Hs. apply rank_eqb_eq in Hr.
  destruct a, b. simpl in *. congruence.
Qed.

Lemma existsb_card_In c l : existsb (card_eqb c) l = true -> In c l.
Proof.
  intros H. apply existsb_exists in H. destruct H as (x & Hin & E).
  apply card_eqb_eq in E. now subst.
Qed.

Lemma playOn_piles p s c :
  deck (runOn (handlePlayerPlay c) p s) = deck s
  /\ (discardPile (runOn (handlePlayerPlay c) p s) = discardPile s
      \/ discardPile (runOn (handlePlayerPlay c) p s) = discardPile s ++ [c]).
Proof.
  destruct (playOn_cases p s c) as [E|[(Ht & Hg & Hc & Hr)|(Ht & Hg & Hc & Hr)]].
  - rewrite E. auto.
  - rewrite (playOn_ace p s c Ht Hg Hc Hr). auto.
  - destruct (playOn_plain p s c Ht Hg Hc Hr) as (_ & _ & E3 & E4 & _). auto.
Qed.

Lemma pickOn_piles p s su :
  deck (runOn (handleSuitPick su) p s) = deck s
  /\ (discardPile (runOn (handleSuitPick su) p s) = discardPile s
      \/ exists c,
           discardPile (runOn (handleSuitPick su) p s) = discardPile s ++ [c]).
Proof.
  destruct (pendingAceCard p) as [c|] eqn:E.
  - destruct (pickOn_pending p s su c E) as (_ & _ & E3 & E4 & _). eauto.
  - rewrite (pickOn_none p s su E). auto.
Qed.

Lemma draw_piles s :
  (deck (draw s) = deck s \/ exists top, deck s = top :: deck (draw s))
  /\ discardPile (draw s) = discardPile s.
Proof.
  destruct (draw_cases s) as [E|[Ht Hg]]; [rewrite E; auto|].
  destruct (deck s) as [|top more] eqn:Hd.
  - rewrite (draw_empty s Ht Hg Hd). destruct s; upd; fields. auto.
  - rewrite (draw_card s top more Ht Hg Hd). fields. eauto.
Qed.

Lemma aiMove_piles s :
  (deck (aiMove s) = deck s \/ exists top, deck s = top :: deck (aiMove s))
  /\ (discardPile (aiMove s) = discardPile s
      \/ exists c, discardPile (aiMove s) = discardPile s ++ [c]).
Proof.
  destruct (aiMove_cases s) as [E|[Ht Hg]]; [rewrite E; auto|].
  destruct (cardToPlay s) as [c|] eqn:Hc.
  - destruct (aiMove_play s c Ht Hg Hc) as (_ & _ & E3 & E4 & _). eauto.
  - destruct (aiMove_draw s Ht Hg Hc) as (_ & E2 & _ & _ & E4).
    split; [|auto]. destruct (deck s) as [|top more]; destruct E4 as [E4 _].
    + left. exact E4.
    + right. exists top. now rewrite E4.
Qed.

Lemma move_piles m s :
  (deck (move m s) = deck s \/ exists top, deck s = top :: deck (move m s))
  /\ (discardPile (move m s) = discardPile s
      \/ exists c, discardPile (move m s) = discardPile s ++ [c]).
Proof.
  destruct m as [c|su| | | |p c|p su]; simpl.
  - destruct (playOn_piles s s c) as [E [F|F]]; eauto.
  - destruct (pickOn_piles s s su) as [E F]. auto.
  - destruct (draw_piles s) as [E F]. auto.
  - destruct (aiEffect_frame s) as (E & _ & _ & F & _). auto.
  - apply aiMove_piles.
  - destruct (playOn_piles p s c) as [E [F|F]]; eauto.
  - destruct (pickOn_piles p s su) as [E F]. auto.
Qed.

(** X12: over any sequence of moves, clicks handled by a stale closure
    included, the draw pile only loses cards from its front and the
    discard pile only gains cards at its end, at most one card per move
    each: the draw pile is never refilled from the discards, and once
    it is empty it stays empty until a new deal. *)
Theorem piles_are_monotone (ms : list Move) (s : State) :
  (exists k, k <= length ms /\ deck (moves ms s) = skipn k (deck s))
  /\ (exists l, length l <= length ms
                /\ discardPile (moves ms s) = discardPile s ++ l)
  /\ (deck s = [] -> deck (moves ms s) = []).
Proof.
  revert s. induction ms as [|m ms IH]; intros s; simpl.
  - split; [exists 0; auto|].
    split; [exists []; split; [auto|now rewrite app_nil_r]|auto].
  - destruct (IH (move m s)) as ((k & Hk & Dk) & (l & Hl & Xl) & Z).
    destruct (move_piles m s) as [D X]. split; [|split].
    + destruct D as [D|[top D]].
      * exists k. split; [lia|]. now rewrite Dk, D.
      * exists (S k). split; [lia|]. now rewrite Dk, D.
    + destruct X as [X|[c X]].
      * exists l. split; [lia|]. now rewrite Xl, X.
      * exists (c :: l). split; [simpl; lia|].
        now rewrite Xl, X, <- app_assoc.
    + intros N. apply Z. destruct D as [D|[top D]]; congruence.
Qed.

(** X13: a click handled by the closure of an earlier render is judged
    on that render and written to the live state.  When the card could
    be played in the render [snap], the click appends it to the live
    discard pile and sets its suit whatever the live turn and status --
    after the game is lost as well -- and it overwrites the live human
    hand with the hand of [snap] less the card; the draw pile and the
    opponent hand keep their live values, and the terminal check runs
    on the hands of [snap]. *)
Theorem stale_play_spec (snap live : State) (c : Card) :
  turn snap = player -> gameStatus snap = playing ->
  canPlay snap c = true -> rank c <> RA ->
  let s' := runOn (handlePlayerPlay c) snap live in
  discardPile s' = discardPile live ++ [c]
  /\ currentSuit s' = Some (suit c)
  /\ playerHand s' = without c (playerHand snap)
  /\ deck s' = deck live /\ aiHand s' = aiHand live
  /\ gameStatus s'
     = terminal (without c (playerHand snap)) (aiHand snap) (gameStatus live)
  /\ turn s'
     = (if continues (without c (playerHand snap)) (aiHand snap)
        then ai else turn live)
  /\ s' <> live.
Proof.
  intros Ht Hg Hc Hr s'.
  destruct (playOn_plain snap live c Ht Hg Hc Hr)
    as (E1 & E2 & E3 & E4 & E5 & _ & _ & E8 & E9).
  fold s' in E1, E2, E3, E4, E5, E8, E9.
  repeat split; auto.
  intros E. rewrite E in E4. apply (f_equal (@length Card)) in E4.
  rewrite length_app in E4. simpl in E4. lia.
Qed.

Lemma stale_play_spec_witness :
  let snap := lastKingState in
  let c := card RK diamonds in
  let live := playCard c snap in
  let s' := runOn (handlePlayerPlay c) snap live in
  (turn snap = player /\ gameStatus snap = playing
   /\ canPlay snap c = true /\ rank c <> RA)
  /\ gameStatus live = lost
  /\ discardPile s' = discardPile live ++ [c]
  /\ currentSuit s' = Some (suit c)
  /\ playerHand s' = without c (playerHand snap)
  /\ deck s' = deck live /\ aiHand s' = aiHand live
  /\ gameStatus s'
     = terminal (without c (playerHand snap)) (aiHand snap) (gameStatus live)
  /\ turn s'
     = (if continues (without c (playerHand snap)) (aiHand snap)
        then ai else turn live)
  /\ s' <> live.
Proof.
  intros snap c live s'.
  assert (Hr : rank c <> RA) by discriminate.
  split; [repeat split; assumption|]. split; [vm_compute; reflexivity|].
  exact (stale_play_spec lastKingState
           (playCard (card RK diamonds) lastKingState) (card RK diamonds)
           eq_refl eq_refl eq_refl Hr).
Defined.

Lemma idle_move_noop m s :
  gameStatus s <> playing -> pendingAceCard s = None ->
  fresh m = true -> move m s = s.
Proof.
  intros Hg Hp F. destruct m as [c|su| | | |p c|p su]; simpl in *;
    try discriminate F.
  - destruct (playCard_cases s c) as [E|[[_ E]|(_ & G & _)]];
      [exact E | | contradiction].
    unfold playCard, run, runOn, handlePlayerPlay.
    destruct (status_eqb (gameStatus s) playing) eqn:B.
    + apply status_eqb_eq in B. contradiction.
    + now rewrite orb_true_r.
  - unfold chooseSuit, run, runOn, handleSuitPick. now rewrite Hp.
  - destruct (draw_cases s) as [E|[_ G]]; [exact E|contradiction].
  - unfold run, runOn, aiEffect, aiScheduled.
    destruct (status_eqb (gameStatus s) playing) eqn:B.
    + apply status_eqb_eq in B. contradiction.
    + now rewrite andb_false_r.
  - destruct (aiMove_cases s) as [E|[_ G]]; [exact E|contradiction].
Qed.

(** X14: outside a game in progress and with no Ace pending -- before
    the first deal in particular -- no sequence of plays (of any card),
    suit choices, draws or opponent steps handled by the closures of
    the current render changes any field of the state.  (A click
    handled by a stale closure can: X13.) *)
Theorem idle_is_final (ms : list Move) (s : State) :
  gameStatus s <> playing -> pendingAceCard s = None ->
  forallb fresh ms = true -> moves ms s = s.
Proof.
  intros Hg Hp. induction ms as [|m ms IH]; intros F; simpl in *.
  - reflexivity.
  - apply andb_true_iff in F. destruct F as [F1 F2].
    rewrite (idle_move_noop m s Hg Hp F1). exact (IH F2).
Qed.

Lemma idle_is_final_witness :
  let ms := [MPlay (card RA spades); MDraw; MSuit spades; MThink; MAi] in
  (gameStatus initialState <> playing /\ pendingAceCard initialState = None
   /\ forallb fresh ms = true)
  /\ moves ms initialState = initialState.
Proof.
  intros ms.
  assert (Hg : gameStatus initialState <> playing) by discriminate.
  split; [split; [exact Hg|split; reflexivity]|].
  exact (idle_is_final ms initialState Hg eq_refl eq_refl).
Defined.

(** X20: a handler whose guard fails on the render it closes over
    writes nothing: whatever the live state, the event leaves every
    field of it as it was.  The guards are the turn, the status and
    [canPlay] for a play, the turn and the status for a draw, and the
    pending card for a suit choice, all read from the snapshot. *)
Theorem guard_failure_is_noop (snap live : State) (i : Intent) :
  illegal snap i -> runOn (handler i) snap live = live.
Proof.
  destruct i as [c|su|]; simpl; intros H;
    unfold runOn, handlePlayerPlay, handleSuitPick, handleDraw.
  - assert (G : negb (turn_eqb (turn snap) player)
                || negb (status_eqb (gameStatus snap) playing)
                || negb (canPlay snap c) = true).
    { destruct H as [H|[H|H]].
      + destruct (turn_eqb (turn snap) player) eqn:E; [|reflexivity].
        apply turn_eqb_eq in E. contradiction.
      + destruct (status_eqb (gameStatus snap) playing) eqn:E;
          [|now rewrite orb_true_r].
        apply status_eqb_eq in E. contradiction.
      + rewrite H. now rewrite orb_true_r. }
    rewrite G. reflexivity.
  - rewrite H. reflexivity.
  - assert (G : negb (turn_eqb (turn snap) player)
                || negb (status_eqb (gameStatus snap) playing) = true).
    { destruct H as [H|H].
      + destruct (turn_eqb (turn snap) player) eqn:E; [|reflexivity].
        apply turn_eqb_eq in E. contradiction.
      + destruct (status_eqb (gameStatus snap) playing) eqn:E;
          [|now rewrite orb_true_r].
        apply status_eqb_eq in E. contradiction. }
    rewrite G. reflexivity.
Qed.

Lemma guard_failure_is_noop_witness :
  (illegal openingState (PlayCard (card R2 hearts))
   /\ runOn (handler (PlayCard (card R2 hearts))) openingState midGameState
      = midGameState)
  /\ (illegal openingState (ChooseSuit clubs)
      /\ dispatch (ChooseSuit clubs) openingState = openingState)
  /\ (illegal initialState Draw /\ dispatch Draw initialState = initialState).
Proof.
  assert (H1 : illegal openingState (PlayCard (card R2 hearts))).
  { right; right; reflexivity. }
  assert (H2 : illegal openingState (ChooseSuit clubs)) by reflexivity.
  assert (H3 : illegal initialState Draw) by (right; discriminate).
  split; [|split].
  - split; [exact H1 | exact (guard_failure_is_noop _ _ _ H1)].
  - split; [exact H2 | exact (guard_failure_is_noop _ _ _ H2)].
  - split; [exact H3 | exact (guard_failure_is_noop _ _ _ H3)].
Defined.

(** ** Blocked games and drawn cards *)

Lemma canPlay_same s s' c :
  discardPile s' = discardPile s -> currentSuit s' = currentSuit s ->
  canPlay s' c = canPlay s c.
Proof. intros Ed Ec. unfold canPlay, topDiscard. now rewrite Ed, Ec. Qed.

Lemma filter_canPlay_same s s' l :
  discardPile s' = discardPile s -> currentSuit s' = currentSuit s ->
  filter (canPlay s') l = filter (canPlay s) l.
Proof.
  intros Ed Ec. apply filter_ext. intros c. now apply canPlay_same.
Qed.

Lemma round_blocked s :
  turn s = player -> gameStatus s = playing -> deck s = [] ->
  filter (canPlay s) (aiHand s) = [] ->
  sameTable s (round s).
Proof.
  intros Ht Hg Hd Hn. unfold round.
  pose proof (draw_empty s Ht Hg Hd) as E.
  set (s1 := draw s) in *.
  assert (F : deck s1 = [] /\ playerHand s1 = playerHand s
              /\ aiHand s1 = aiHand s /\ discardPile s1 = discardPile s
              /\ currentSuit s1 = currentSuit s /\ turn s1 = ai
              /\ gameStatus s1 = playing
              /\ pendingAceCard s1 = pendingAceCard s).
  { rewrite E. destruct s; fields; subst; upd. repeat split. }
  destruct F as (F1 & F2 & F3 & F4 & F5 & F6 & F7 & F8).
  assert (Hc : cardToPlay s1 = None).
  { apply cardToPlay_none.
    rewrite (filter_canPlay_same s s1 _ F4 F5), F3. exact Hn. }
  destruct (aiMove_draw s1 F6 F7 Hc) as (G1 & G2 & G3 & G4 & G5).
  destruct (aiMove_draw_rest s1 F6 F7 Hc) as [G6 G7].
  rewrite F1 in G5. destruct G5 as [G5 G8].
  unfold sameTable. repeat split; congruence.
Qed.

(** X15: there is no stalemate rule.  With an empty draw pile and no
    playable card in the opponent hand, a human draw followed by the
    opponent's move leaves piles, hands, effective suit, turn and status
    as they were, so the game is still in progress after any number of
    such rounds. *)
Theorem blocked_game_never_ends (s : State) (n : nat) :
  turn s = player -> gameStatus s = playing -> deck s = [] ->
  filter (canPlay s) (aiHand s) = [] ->
  sameTable s (Nat.iter n round s)
  /\ gameStatus (Nat.iter n round s) = playing.
Proof.
  intros Ht Hg Hd Hn.
  assert (T : sameTable s (Nat.iter n round s)).
  { induction n as [|n IH]; simpl.
    - unfold sameTable. repeat split.
    - destruct IH as (E1 & E2 & E3 & E4 & E5 & E6 & E7 & E8).
      set (sn := Nat.iter n round s) in *.
      assert (R : sameTable sn (round sn)).
      { apply round_blocked; try congruence.
        rewrite (filter_canPlay_same s sn _ E4 E5), E3. exact Hn. }
      destruct R as (R1 & R2 & R3 & R4 & R5 & R6 & R7 & R8).
      unfold sameTable. repeat split; congruence. }
  split; [exact T|]. destruct T as (_ & _ & _ & _ & _ & _ & E & _).
  congruence.
Qed.

Lemma blocked_game_never_ends_witness :
  let s := blockedState in
  (turn s = player /\ gameStatus s = playing /\ deck s = []
   /\ filter (canPlay s) (aiHand s) = [])
  /\ filter (canPlay s) (playerHand s) = []
  /\ sameTable s (Nat.iter 7 round s)
  /\ gameStatus (Nat.iter 7 round s) = playing.
Proof.
  intros s. split; [repeat split|]. split; [reflexivity|].
  exact (blocked_game_never_ends blockedState 7
           eq_refl eq_refl eq_refl eq_refl).
Defined.

Lemma without_appended c l :
  ~ In (id c) (ids l) -> without c (l ++ [c]) = l.
Proof.
  intros H. rewrite without_app, (without_notin c l H). simpl.
  rewrite String.eqb_refl. simpl. apply app_nil_r.
Qed.

(** X16: a drawn card that is playable can be played with the next
    intent: drawing a playable non-Ace card and then playing it leaves
    the human hand as it was before the draw, takes one card off the
    draw pile, puts that card on top of the discard pile and makes its
    suit the effective suit; the terminal check then runs on the old
    hand. *)
Theorem draw_then_play (s : State) (top : Card) (rest : list Card) :
  turn s = player -> gameStatus s = playing -> deck s = top :: rest ->
  canPlay s top = true -> rank top <> RA ->
  ~ In (id top) (ids (playerHand s)) ->
  let s2 := playCard top (draw s) in
  turn (draw s) = player
  /\ playerHand s2 = playerHand s
  /\ deck s2 = rest
  /\ discardPile s2 = discardPile s ++ [top]
  /\ currentSuit s2 = Some (suit top)
  /\ aiHand s2 = aiHand s
  /\ gameStatus s2 = terminal (playerHand s) (aiHand s) playing
  /\ turn s2 = (if continues (playerHand s) (aiHand s) then ai else player).
Proof.
  intros Ht Hg Hd Hc Hr Hn s2.
  pose proof (draw_card s top rest Ht Hg Hd) as E. rewrite Hc in E.
  set (s1 := draw s) in *.
  assert (F : deck s1 = rest /\ playerHand s1 = playerHand s ++ [top]
              /\ aiHand s1 = aiHand s /\ discardPile s1 = discardPile s
              /\ currentSuit s1 = currentSuit s /\ turn s1 = player
              /\ gameStatus s1 = playing).
  { rewrite E. fields. repeat split. }
  destruct F as (F1 & F2 & F3 & F4 & F5 & F6 & F7).
  assert (Hc1 : canPlay s1 top = true)
    by (now rewrite (canPlay_same s s1 top F4 F5)).
  destruct (playCard_plain s1 top F6 F7 Hc1 Hr)
    as (G1 & G2 & G3 & G4 & G5 & _ & G6 & G7).
  fold s2 in G1, G2, G3, G4, G5, G6, G7.
  rewrite F2, (without_appended top _ Hn) in G1, G6, G7.
  rewrite F3 in G6, G7.
  repeat split; congruence.
Qed.

Lemma draw_then_play_witness :
  let s := openingState in
  let top := card R9 diamonds in
  let s2 := playCard top (draw s) in
  (turn s = player /\ gameStatus s = playing
   /\ deck s = top :: tl (deck s)
   /\ canPlay s top = true /\ rank top <> RA
   /\ ~ In (id top) (ids (playerHand s)))
  /\ turn (draw s) = player
  /\ playerHand s2 = playerHand s
  /\ deck s2 = tl (deck s)
  /\ discardPile s2 = discardPile s ++ [top]
  /\ currentSuit s2 = Some (suit top)
  /\ aiHand s2 = aiHand s
  /\ gameStatus s2 = terminal (playerHand s) (aiHand s) playing
  /\ turn s2 = (if continues (playerHand s) (aiHand s) then ai else player).
Proof.
  intros s top s2.
  assert (Hr : rank top <> RA) by discriminate.
  assert (Hn : ~ In (id top) (ids (playerHand s))).
  { intros H. simpl in H.
    repeat (destruct H as [H|H]; [discriminate H|]). exact H. }
  split; [repeat split; assumption|].
  exact (draw_then_play openingState (card R9 diamonds)
           (tl (deck openingState)) eq_refl eq_refl eq_refl eq_refl Hr Hn).
Defined.

(** ** The opponent's tally of suits *)

Lemma keys_set_old m k v : In k (keys m) -> keys (set m k v) = keys m.
Proof.
  induction m as [|[k0 n] m IH]; simpl; intros H; [destruct H|].
  destruct (suit_eqb k0 k) eqn:E; simpl; [reflexivity|].
  f_equal. apply IH. destruct H as [H|H]; [|exact H].
  subst k0. rewrite suit_eqb_refl in E. discriminate.
Qed.

Lemma keys_set_new m k v : ~ In k (keys m) -> keys (set m k v) = keys m ++ [k].
Proof.
  induction m as [|[k0 n] m IH]; simpl; intros H; [reflexivity|].
  destruct (suit_eqb k0 k) eqn:E; simpl.
  - apply suit_eqb_eq in E. tauto.
  - f_equal. apply IH. tauto.
Qed.

Lemma suit_in_dec (k : Suit) (l : list Suit) : {In k l} + {~ In k l}.
Proof. apply in_dec. decide equality. Qed.

Lemma keys_countCard m c :
  keys (countCard m c) = keys m
  \/ (~ In (suit c) (keys m) /\ keys (countCard m c) = keys m ++ [suit c]).
Proof.
  unfold countCard. destruct (suit_in_dec (suit c) (keys m)) as [H|H].
  - left. now apply keys_set_old.
  - right. split; [exact H|]. now apply keys_set_new.
Qed.

Lemma keys_countCard_in m c : In (suit c) (keys (countCard m c)).
Proof.
  apply in_keys_get. unfold countCard. rewrite get_set, suit_eqb_refl.
  discriminate.
Qed.

Lemma keys_fold_prefix hand : forall m,
  exists l, keys (fold_left countCard hand m) = keys m ++ l.
Proof.
  induction hand as [|c hand IH]; intros m; simpl.
  - exists []. now rewrite app_nil_r.
  - destruct (IH (countCard m c)) as [l E]. rewrite E.
    destruct (keys_countCard m c) as [K|[_ K]]; rewrite K.
    + now exists l.
    + exists (suit c :: l). now rewrite <- app_assoc.
Qed.

Lemma keys_fold_NoDup hand : forall m,
  NoDup (keys m) -> NoDup (keys (fold_left countCard hand m)).
Proof.
  induction hand as [|c hand IH]; intros m H; simpl; [exact H|].
  apply IH. destruct (keys_countCard m c) as [K|[N K]]; rewrite K.
  - exact H.
  - apply NoDup_app; repeat split; auto.
    + constructor; [intros []|constructor].
    + intros x Hx [E|[]]. subst. contradiction.
Qed.

Lemma prefix_before {A} (P l K1 K2 : list A) (x : A) :
  P ++ l = K1 ++ x :: K2 -> ~ In x P -> exists K, K1 = P ++ K.
Proof.
  revert K1. induction P as [|p P IH]; intros K1 E N; simpl in *.
  - now exists K1.
  - destruct K1 as [|k K1]; simpl in E; inversion E; subst.
    + tauto.
    + destruct (IH K1 H1) as [K HK]; [tauto|]. exists K. now rewrite HK.
Qed.

(** The keys of the tally come in the order in which the suits first
    occur in the hand. *)
Lemma keys_fold_first hand : forall m K1 su K2,
  keys (fold_left countCard hand m) = K1 ++ su :: K2 ->
  ~ In su (keys m) ->
  exists l1 c l2,
    hand = l1 ++ c :: l2 /\ suit c = su
    /\ forall c', In c' l1 -> In (suit c') K1.
Proof.
  induction hand as [|c0 hand IH]; intros m K1 su K2 E N; simpl in E.
  - exfalso. apply N. rewrite E. apply in_or_app. right. now left.
  - destruct (suit_eqb (suit c0) su) eqn:S0.
    + apply suit_eqb_eq in S0. exists [], c0, hand.
      repeat split; auto. intros c' [].
    + assert (D : suit c0 <> su).
      { intros F. apply suit_eqb_eq in F. congruence. }
      assert (N' : ~ In su (keys (countCard m c0))).
      { destruct (keys_countCard m c0) as [K|[_ K]]; rewrite K; [exact N|].
        intros F. apply in_app_or in F. destruct F as [F|[F|[]]]; auto. }
      destruct (IH _ K1 su K2 E N') as (l1 & c & l2 & H1 & H2 & H3).
      exists (c0 :: l1), c, l2. repeat split; [now rewrite H1 | exact H2 |].
      intros c' [<-|Hc']; [|now apply H3].
      destruct (keys_fold_prefix hand (countCard m c0)) as [l P].
      rewrite P in E.
      destruct (prefix_before _ _ _ _ _ E N') as [K HK].
      rewrite HK. apply in_or_app. left. apply keys_countCard_in.
Qed.

(** The head of the sorted keys is the first key of greatest count. *)
Lemma sort_head_first m (l : list Suit) :
  match sort (byCountDesc m) l with
  | [] => l = []
  | h :: _ =>
    exists K1 K2,
      l = K1 ++ h :: K2
      /\ (forall y, In y K1 -> get_or_0 m y < get_or_0 m h)
      /\ (forall y, In y K2 -> get_or_0 m y <= get_or_0 m h)
  end.
Proof.
  induction l as [|x l IH]; simpl; [reflexivity|].
  destruct (sort (byCountDesc m) l) as [|h t]; simpl.
  - subst l. exists [], []. repeat split; intros y [].
  - destruct IH as (K1 & K2 & E & B & A).
    destruct (byCountDesc m x h <=? 0)%Z eqn:C.
    + apply Z.leb_le in C. unfold byCountDesc in C.
      exists [], l. repeat split; [intros y []|].
      intros y Hy. rewrite E in Hy. apply in_app_or in Hy.
      destruct Hy as [Hy|[<-|Hy]].
      * specialize (B y Hy). lia.
      * lia.
      * specialize (A y Hy). lia.
    + apply Z.leb_gt in C. unfold byCountDesc in C.
      exists (x :: K1), K2. repeat split; [now rewrite E | | exact A].
      intros y [<-|Hy]; [lia | now apply B].
Qed.

(** X17: how the opponent breaks a tie after an Ace: for a non-empty
    remaining hand the suit it names is the suit of some card of the
    hand, and every card that comes before the first card of that suit
    belongs to a suit of which the hand holds strictly fewer cards.
    Among the suits held most, the one met first in hand order wins. *)
Theorem bestSuit_first_of_most (hand : list Card) :
  hand <> [] ->
  exists l1 c l2,
    hand = l1 ++ c :: l2 /\ suit c = bestSuit hand
    /\ (forall c', In c' l1 ->
          holds (suit c') hand < holds (bestSuit hand) hand)
    /\ (forall su, holds su hand <= holds (bestSuit hand) hand).
Proof.
  intros Hne. destruct (bestSuit_most hand Hne) as [_ Hmax].
  unfold bestSuit in *.
  pose proof (sort_head_first (countSuits hand) (keys (countSuits hand))) as H.
  destruct (sort _ (keys (countSuits hand))) as [|h t].
  - destruct hand as [|c hand]; [contradiction|].
    pose proof (keys_countSuits_nonempty c hand) as K.
    rewrite H in K. destruct K.
  - destruct H as (K1 & K2 & E & B & _).
    destruct (keys_fold_first hand [] K1 h K2 E) as (l1 & c & l2 & H1 & H2 & H3).
    { intros []. }
    exists l1, c, l2. repeat split; auto.
    intros c' Hc'. specialize (B _ (H3 c' Hc')).
    now rewrite !get_or_0_countSuits in B.
Qed.

Lemma bestSuit_first_of_most_witness :
  let hand := [card R9 clubs; card R3 diamonds; card R2 diamonds;
               card R4 spades; card R5 spades] in
  hand <> []
  /\ bestSuit hand = diamonds
  /\ exists l1 c l2,
    hand = l1 ++ c :: l2 /\ suit c = bestSuit hand
    /\ (forall c', In c' l1 ->
          holds (suit c') hand < holds (bestSuit hand) hand)
    /\ (forall su, holds su hand <= holds (bestSuit hand) hand).
Proof.
  intros hand.
  assert (Hne : hand <> []) by discriminate.
  split; [exact Hne|]. split; [reflexivity|].
  exact (bestSuit_first_of_most hand Hne).
Defined.

Lemma list_sum_set m k :
  list_sum (map snd (set m k (get_or_0 m k + 1)))
  = list_sum (map snd m) + 1.
Proof.
  unfold get_or_0. induction m as [|[k0 n] m IH]; simpl; [reflexivity|].
  destruct (suit_eqb k0 k) eqn:E; simpl; [lia|].
  rewrite IH. lia.
Qed.

Lemma list_sum_fold hand : forall m,
  list_sum (map snd (fold_left countCard hand m))
  = list_sum (map snd m) + length hand.
Proof.
  induction hand as [|c hand IH]; intros m; simpl; [lia|].
  rewrite IH. unfold countCard. rewrite list_sum_set. lia.
Qed.

(** X18: the tally the opponent builds over its hand is exact: the
    entry of a suit is the number of cards of that suit (no entry for a
    suit it does not hold), each suit has at most one entry, and the
    entries add up to the size of the hand. *)
Theorem countSuits_tallies (hand : list Card) (su : Suit) :
  get_or_0 (countSuits hand) su = holds su hand
  /\ (get (countSuits hand) su = None <-> holds su hand = 0)
  /\ (In su (keys (countSuits hand)) <-> 0 < holds su hand)
  /\ NoDup (keys (countSuits hand))
  /\ list_sum (map snd (countSuits hand)) = length hand.
Proof.
  pose proof (get_or_0_countSuits hand su) as G.
  assert (P : In su (keys (countSuits hand)) <-> 0 < holds su hand).
  { split; [apply keys_countSuits_pos|].
    intros H. apply in_keys_get. intros N.
    unfold get_or_0 in G. rewrite N in G. lia. }
  repeat split.
  - exact G.
  - intros N. unfold get_or_0 in G. rewrite N in G. lia.
  - intros Z. destruct (get (countSuits hand) su) eqn:E; [|reflexivity].
    assert (K : In su (keys (countSuits hand)))
      by (apply in_keys_get; congruence).
    apply P in K. lia.
  - apply P.
  - apply P.
  - unfold countSuits. apply keys_fold_NoDup. constructor.
  - unfold countSuits. now rewrite list_sum_fold.
Qed.

(** ** Conservation of the cards *)

Lemma zones_eq s s' :
  deck s' = deck s -> playerHand s' = playerHand s ->
  aiHand s' = aiHand s -> discardPile s' = discardPile s ->
  Permutation (zones s) (zones s').
Proof. unfold zones. intros -> -> -> ->. reflexivity. Qed.

Lemma fair_cons m ms s :
  fair (m :: ms) s = true ->
  match m with
  | MPlay c => In c (playerHand s)
  | _ => fresh m = true
  end /\ fair ms (move m s) = true.
Proof.
  simpl. intros H. apply andb_true_iff in H. destruct H as [H1 H2].
  split; [|exact H2]. destruct m; auto. now apply existsb_card_In.
Qed.

Lemma move_perm m s :
  Inv s -> fair [m] s = true ->
  Permutation (zones s) (zones (move m s)) /\ Inv (move m s).
Proof.
  intros I F. apply fair_cons in F. destruct F as [F _].
  pose proof I as [Hz Hp].
  destruct m as [c|su| | | |p c|p su]; simpl in *; try discriminate F.
  - split; [|now apply Inv_playCard].
    destruct (playCard_cases s c) as [E|[[_ E]|(Ht & Hg & Hc & Hk)]].
    + now rewrite E.
    + rewrite E. reflexivity.
    + destruct (playCard_plain s c Ht Hg Hc Hk) as (E1 & E2 & E3 & E4 & _).
      unfold zones. rewrite E1, E2, E3, E4.
      apply perm_human_play; [now apply zones_hand_NoDup | exact F].
  - split; [|now apply Inv_chooseSuit].
    destruct (pendingAceCard s) as [c|] eqn:E.
    + destruct (chooseSuit_pending s su c E) as (E1 & E2 & E3 & E4 & _).
      destruct (Hp c E) as [Hin _].
      unfold zones. rewrite E1, E2, E3, E4.
      apply perm_human_play; [now apply zones_hand_NoDup | exact Hin].
    + unfold chooseSuit, run, runOn, handleSuitPick. now rewrite E.
  - split; [|now apply Inv_draw].
    destruct (draw_cases s) as [E|[Ht Hg]]; [now rewrite E|].
    destruct (deck s) as [|top more] eqn:Hd.
    + rewrite (draw_empty s Ht Hg Hd).
      apply zones_eq; destruct s; reflexivity.
    + rewrite (draw_card s top more Ht Hg Hd).
      unfold zones. fields. rewrite Hd. apply perm_human_draw.
  - split; [|now apply Inv_aiEffect].
    destruct (aiEffect_frame s) as (E1 & E2 & E3 & E4 & _).
    now apply zones_eq.
  - split; [|now apply Inv_aiMove].
    destruct (aiMove_cases s) as [E|[Ht Hg]]; [now rewrite E|].
    destruct (cardToPlay s) as [c|] eqn:Hc.
    + destruct (aiMove_play s c Ht Hg Hc) as (E1 & E2 & E3 & E4 & _).
      destruct (cardToPlay_in s c Hc) as [Hin _].
      unfold zones. rewrite E1, E2, E3, E4.
      apply perm_opponent_play; [now apply zones_aiHand_NoDup | exact Hin].
    + destruct (aiMove_draw s Ht Hg Hc) as (E1 & E2 & _ & _ & E4).
      unfold zones.
      destruct (deck s) as [|top more]; destruct E4 as [E4 E5];
        rewrite E1, E2, E4, E5; [reflexivity | apply perm_opponent_draw].
Qed.

Lemma moves_perm ms : forall s,
  Inv s -> fair ms s = true ->
  Permutation (zones s) (zones (moves ms s)) /\ Inv (moves ms s).
Proof.
  induction ms as [|m ms IH]; intros s I F; simpl.
  - split; [reflexivity | exact I].
  - assert (F1 : fair [m] s = true).
    { simpl in *. apply andb_true_iff in F. destruct F as [F _].
      now rewrite F. }
    destruct (fair_cons m ms s F) as [_ F2].
    destruct (move_perm m s I F1) as [P I1].
    destruct (IH (move m s) I1 F2) as [P' I2].
    split; [|exact I2]. now transitivity (zones (move m s)).
Qed.

Lemma dealt_perm d s0 s :
  fullDeckOk d -> startGame d s0 = Some s -> Permutation d (zones s).
Proof.
  intros Hd H. destruct (dealt_state d s0 s Hd H) as (c & Hc & ->).
  unfold zones. fields.
  pose proof (deal_split d c Hc) as Ed.
  apply (Permutation_trans
           (l' := (slice 0 10 d ++ slice 10 20 d ++ [c]) ++ slice_from 21 d)).
  - rewrite <- !app_assoc. rewrite <- Ed. reflexivity.
  - apply Permutation_app_comm.
Qed.

(** X19: as long as every play is a click, handled by the closure of
    the current render, on a card that is in the hand at that moment,
    no card is lost, invented or copied: after a deal and any such
    sequence of moves the draw pile, the two hands and the discard pile
    together hold exactly the cards of the deck that was dealt, 52 in
    all with no identifier twice.  (Without that condition a card is
    copied: C1.) *)
Theorem cards_are_conserved (d : list Card) (s0 s : State)
        (ms : list Move) :
  fullDeckOk d -> startGame d s0 = Some s -> fair ms s = true ->
  Permutation d (zones (moves ms s))
  /\ (forall c, In c d <-> In c (zones (moves ms s)))
  /\ zonesOk (moves ms s).
Proof.
  intros Hd Hs Hm.
  destruct (moves_perm ms s (Inv_deal d s0 s Hd Hs) Hm) as [P' [Z _]].
  assert (P : Permutation d (zones (moves ms s))).
  { transitivity (zones s); [exact (dealt_perm d s0 s Hd Hs) | exact P']. }
  split; [exact P|]. split; [|exact Z].
  intros c. split; intros H.
  - exact (Permutation_in c P H).
  - exact (Permutation_in c (Permutation_sym P) H).
Qed.

Lemma cards_are_conserved_witness :
  let ms := [MPlay (card R8 hearts); MThink; MAi; MDraw] in
  (fullDeckOk createDeck
   /\ startGame createDeck initialState = Some openingState
   /\ fair ms openingState = true)
  /\ Permutation createDeck (zones (moves ms openingState))
  /\ (forall c, In c createDeck <-> In c (zones (moves ms openingState)))
  /\ zonesOk (moves ms openingState).
Proof.
  intros ms.
  assert (Hs : startGame createDeck initialState = Some openingState)
    by (vm_compute; reflexivity).
  assert (Hf : fair ms openingState = true) by (vm_compute; reflexivity).
  split; [split; [exact createDeck_ok | split; [exact Hs | exact Hf]]|].
  exact (cards_are_conserved createDeck initialState openingState ms
           createDeck_ok Hs Hf).
Defined.
